(** * scrape.py: an asynchronous scraper with terminal progress bars

    A shallow embedding of [src/scrape.py] and the properties of its slot
    pool, its download task, its concurrency limiter and its orchestrator.

    Python values are modelled as follows.
    - [str] and [bytes] are [string]; [len] is [String.length].
    - [int] is [Z]; a list index is a [Z], negative indices counting from
      the end as in Python.
    - [None]-or-value is [option].
    - A [dict] with string keys is a [gmap string _].
    - A raised exception is the [Raise] case of [result]; code with effects
      lives in the monad [M], which threads the [world] (slot pool, log
      records, file system, progress-bar calls) through both cases.
    - What lies outside the program (the server, the decoding of a page,
      the opening of a file, each write to it, the HTML parser) is a
      parameter of the program, so that every property holds for every
      server, charset, disk and parser unless it names a condition. *)

From Stdlib Require Import ZArith Lia Bool Ascii String List Sorted.
From stdpp Require Import base option list gmap strings pretty.

Local Open Scope string_scope.
Local Open Scope Z_scope.

(** ** Exceptions and results *)

(** The exception classes the program raises or catches.  [ClientError]
    stands for [aiohttp.client_exceptions.ClientError] and its subclasses,
    told apart by [client_error].  [ValueError] also stands for its
    subclass [UnicodeDecodeError]. *)
Inductive client_error :=
| ClientResponseError (status : Z)
| ClientConnectionError
| ClientPayloadError.

Inductive exn :=
| ClientError (e : client_error)
| TimeoutError
| OSError (errno : string)
| IndexError
| TypeError
| ValueError.

Inductive result (A : Type) :=
| Ok (a : A)
| Raise (e : exn).
Arguments Ok {A} a.
Arguments Raise {A} e.

(** ** Python built-ins used by the program *)

Module py.

(** [l[i] = x] on a list: a negative index counts from the end, and an
    index outside [-len(l) .. len(l)-1] raises [IndexError]. *)
Definition list_setitem {A} (l : list A) (i : Z) (x : A) : result (list A) :=
  let n := Z.of_nat (length l) in
  let j := if i <? 0 then i + n else i in
  if (0 <=? j) && (j <? n) then Ok (<[Z.to_nat j := x]> l) else Raise IndexError.

(** [l[i]] on a list. *)
Definition list_getitem {A} (l : list A) (i : Z) : result A :=
  let n := Z.of_nat (length l) in
  let j := if i <? 0 then i + n else i in
  if (0 <=? j) && (j <? n)
  then match l !! Z.to_nat j with Some x => Ok x | None => Raise IndexError end
  else Raise IndexError.

(** [[x] * n]: empty when [n] is not positive. *)
Definition list_repeat {A} (x : A) (n : Z) : list A := replicate (Z.to_nat n) x.

End py.

(** ** The slot pool of [ProgressBarManager]

    The manager never looks inside the bars it stores in [_lines]: it only
    tests slots against [None].  The pool is therefore generic in what a
    slot holds. *)

Module ProgressBarManager.
Section Pool.
Context {Bar : Type}.

Definition SUB_LINE_OFFSET : Z := 1.
Definition SUB_INDENT : Z := 4.
Definition DEFAULT_COORDS : Z * Z := (0, 0).
Definition DEFAULT_LINE_MAX : Z := 10.

Record t := mk {
  _main_coords : Z * Z;
  _sub_coords : Z * Z;
  _lines : list (option Bar)
}.

(** [__init__]: [main_coords[0]] is read from the argument, not from the
    defaulted attribute, so a missing [main_coords] raises [TypeError].
    [lines if lines else DEFAULT_LINE_MAX] takes the default for [None]
    and for [0]. *)
Definition __init__ (main_coords : option (Z * Z)) (lines : option Z) : result t :=
  let mc := match main_coords with Some c => c | None => DEFAULT_COORDS end in
  match main_coords with
  | None => Raise TypeError
  | Some c =>
      let n := match lines with
               | Some k => if k =? 0 then DEFAULT_LINE_MAX else k
               | None => DEFAULT_LINE_MAX
               end in
      Ok {| _main_coords := mc;
            _sub_coords := (c.1 + SUB_INDENT, c.2 + SUB_LINE_OFFSET);
            _lines := py.list_repeat None n |}
  end.

Definition _get_sub_line (self : t) (idx : Z) : Z * Z :=
  ((_sub_coords self).1, (_sub_coords self).2 + idx).

(** [None in self._lines] *)
Definition None_in (l : list (option Bar)) : bool :=
  existsb (fun x => match x with None => true | Some _ => false end) l.

(** [self._lines.index(None)]: the position of the first [None];
    [ValueError] when there is none. *)
Fixpoint index_None (l : list (option Bar)) : result Z :=
  match l with
  | [] => Raise ValueError
  | None :: _ => Ok 0
  | Some _ :: r =>
      match index_None r with
      | Ok i => Ok (1 + i)
      | Raise e => Raise e
      end
  end.

Definition _alloc_slot (self : t) : result (option Z) :=
  if None_in (_lines self) then
    match index_None (_lines self) with
    | Ok i => Ok (Some i)
    | Raise e => Raise e
    end
  else Ok None.

Definition set_lines (self : t) (l : list (option Bar)) : t :=
  {| _main_coords := _main_coords self;
     _sub_coords := _sub_coords self;
     _lines := l |}.

(** [self._lines[slot] = v] *)
Definition set_line (self : t) (slot : Z) (v : option Bar) : result t :=
  match py.list_setitem (_lines self) slot v with
  | Ok l => Ok (set_lines self l)
  | Raise e => Raise e
  end.

Definition _free_slot (self : t) (slot : Z) : result t :=
  set_line self slot None.

End Pool.
Arguments t : clear implicits.
End ProgressBarManager.

(** ** Python strings *)

Module str.

Definition len (s : string) : Z := Z.of_nat (String.length s).

(** [s[a:]] and [s[:b]] for the non-negative bounds the program uses. *)
Fixpoint drop (n : nat) (s : string) : string :=
  match n, s with
  | O, _ => s
  | S _, EmptyString => EmptyString
  | S k, String _ r => drop k r
  end.

Fixpoint take (n : nat) (s : string) : string :=
  match n, s with
  | O, _ => EmptyString
  | S _, EmptyString => EmptyString
  | S k, String c r => String c (take k r)
  end.

Definition slice_from (s : string) (a : Z) : string := drop (Z.to_nat a) s.
Definition slice_to (s : string) (b : Z) : string := take (Z.to_nat b) s.

(** [s.startswith(p)] and [s.endswith(p)] *)
Definition startswith (s p : string) : bool := String.prefix p s.

Definition endswith (s p : string) : bool :=
  (String.length p <=? String.length s)%nat
  && String.eqb (drop (String.length s - String.length p) s) p.

(** [s.find(c, start)] for a one-character [c]: the first index at or
    after [start] that holds [c], or [-1]. *)
Fixpoint find_at (c : ascii) (s : string) (pos : Z) (start : Z) : Z :=
  match s with
  | EmptyString => -1
  | String x r =>
      if (start <=? pos) && Ascii.eqb x c then pos
      else find_at c r (pos + 1) start
  end.

Definition find (s : string) (c : ascii) (start : Z) : Z := find_at c s 0 start.

(** [s.rfind(c)]: the last index that holds [c], or [-1]. *)
Fixpoint rfind_at (c : ascii) (s : string) (pos : Z) (last : Z) : Z :=
  match s with
  | EmptyString => last
  | String x r => rfind_at c r (pos + 1) (if Ascii.eqb x c then pos else last)
  end.

Definition rfind (s : string) (c : ascii) : Z := rfind_at c s 0 (-1).

(** [s.count(c, 0, e)] for a one-character [c]. *)
Fixpoint count1 (c : ascii) (s : string) : Z :=
  match s with
  | EmptyString => 0
  | String x r => (if Ascii.eqb x c then 1 else 0) + count1 c r
  end.

(** [s.count(ab, 0, e)] for a two-character [ab]: occurrences are counted
    left to right without overlap. *)
Fixpoint count2 (a b : ascii) (s : string) : Z :=
  match s with
  | EmptyString => 0
  | String x r =>
      match r with
      | EmptyString => 0
      | String y r' =>
          if Ascii.eqb x a && Ascii.eqb y b then 1 + count2 a b r'
          else count2 a b r
      end
  end.

(** [s.replace(ab, c)] for a two-character [ab] and a one-character [c]. *)
Fixpoint replace2 (a b c : ascii) (s : string) : string :=
  match s with
  | EmptyString => EmptyString
  | String x r =>
      match r with
      | EmptyString => s
      | String y r' =>
          if Ascii.eqb x a && Ascii.eqb y b then String c (replace2 a b c r')
          else String x (replace2 a b c r)
      end
  end.

(** The ASCII characters for which [str.isspace] holds: tab to carriage
    return, the four separators 28..31, and the space. *)
Definition isspace (c : ascii) : bool :=
  let n := nat_of_ascii c in
  ((9 <=? n) && (n <=? 13) || (28 <=? n) && (n <=? 32))%nat.

Fixpoint lstrip (s : string) : string :=
  match s with
  | EmptyString => EmptyString
  | String c r => if isspace c then lstrip r else s
  end.

(** [rstrip] drops the trailing run of white space: a character is kept
    when something is kept after it or it is not white space. *)
Fixpoint rstrip (s : string) : string :=
  match s with
  | EmptyString => EmptyString
  | String c r =>
      match rstrip r with
      | EmptyString => if isspace c then EmptyString else String c EmptyString
      | r' => String c r'
      end
  end.

Definition strip (s : string) : string := rstrip (lstrip s).

(** [s.lower()] on ASCII letters. *)
Definition lower_char (c : ascii) : ascii :=
  let n := nat_of_ascii c in
  if ((65 <=? n) && (n <=? 90))%nat then ascii_of_nat (n + 32) else c.

Fixpoint lower (s : string) : string :=
  match s with
  | EmptyString => EmptyString
  | String c r => String (lower_char c) (lower r)
  end.

(** The last character, for [value[-1]]. *)
Fixpoint last (s : string) : option ascii :=
  match s with
  | EmptyString => None
  | String c EmptyString => Some c
  | String _ r => last r
  end.

Definition is_digit (c : ascii) : bool :=
  let n := nat_of_ascii c in ((48 <=? n) && (n <=? 57))%nat.

Definition digit_val (c : ascii) : Z := Z.of_nat (nat_of_ascii c) - 48.

(** The digits of an [int] literal: decimal digits, with single
    underscores allowed between two digits.  [prev] tells whether the
    previous character was a digit. *)
Fixpoint digits (s : string) (prev : bool) (acc : Z) : option Z :=
  match s with
  | EmptyString => if prev then Some acc else None
  | String c r =>
      if is_digit c then digits r true (10 * acc + digit_val c)
      else if Ascii.eqb c "_" && prev then digits r false acc
      else None
  end.

(** [int(s)]: surrounding white space is ignored, one sign is allowed,
    anything else that is not a decimal literal raises [ValueError]. *)
Definition int (s : string) : result Z :=
  let body := strip s in
  let (neg, ds) :=
    match body with
    | String "-" r => (true, r)
    | String "+" r => (false, r)
    | _ => (false, body)
    end in
  match digits ds false 0 with
  | Some n => Ok (if neg then - n else n)
  | None => Raise ValueError
  end.

End str.

(** ** [os.path.basename] (posixpath)

    [i = p.rfind('/') + 1; return p[i:]] *)
Definition basename (p : string) : string :=
  let i := str.rfind p "/" + 1 in
  str.slice_from p i.

(** ** [cgi.parse_header] (Python standard library)

    [_parseparam] and [parse_header] are transcribed from [cgi.py].  The
    two [while] loops run on fuel: every round of the inner loop moves
    [end] to a later semicolon, and every round of the outer loop drops at
    least the leading semicolon, so the length of the string bounds both. *)
Module cgi.

Definition dquote : ascii := ascii_of_nat 34.
Definition backslash : ascii := ascii_of_nat 92.

(** The loop test of [_parseparam]: the number of double quotes before
    [end], less the number of backslash-escaped ones, is odd. *)
Definition quotes_odd (s : string) (e : Z) : bool :=
  let p := str.slice_to s e in
  Z.odd (str.count1 dquote p - str.count2 backslash dquote p).

(** [while end > 0 and (...) % 2: end = s.find(';', end + 1)] *)
Fixpoint find_end (fuel : nat) (s : string) (e : Z) : Z :=
  match fuel with
  | O => e
  | S f =>
      if (0 <? e) && quotes_odd s e
      then find_end f s (str.find s ";" (e + 1))
      else e
  end.

Fixpoint _parseparam (fuel : nat) (s : string) : list string :=
  match fuel with
  | O => []
  | S f =>
      if String.eqb (str.slice_to s 1) ";" then
        let s := str.slice_from s 1 in
        let e := find_end (S (String.length s)) s (str.find s ";" 0) in
        let e := if e <? 0 then str.len s else e in
        str.strip (str.slice_to s e) :: _parseparam f (str.slice_from s e)
      else []
  end.

(** The body of [for p in parts] *)
Definition add_param (pdict : gmap string string) (p : string) : gmap string string :=
  let i := str.find p "=" 0 in
  if 0 <=? i then
    let name := str.lower (str.strip (str.slice_to p i)) in
    let value := str.strip (str.slice_from p (i + 1)) in
    let value :=
      if (2 <=? str.len value)
         && match value, str.last value with
            | String c _, Some d => Ascii.eqb c dquote && Ascii.eqb d dquote
            | _, _ => false
            end
      then
        let v := str.slice_to (str.slice_from value 1) (str.len value - 2) in
        str.replace2 backslash dquote dquote
          (str.replace2 backslash backslash backslash v)
      else value in
    <[name := value]> pdict
  else pdict.

(** [parts] starts with the key: the argument of [_parseparam] begins
    with a semicolon, so the generator yields at least once. *)
Definition parse_header (line : string) : string * gmap string string :=
  let parts := _parseparam (S (S (String.length line))) (";" +:+ line) in
  match parts with
  | key :: ps => (key, fold_left add_param ps ∅)
  | [] => ("", ∅)
  end.

End cgi.

(** ** The [progressbar] package

    The program uses [progressbar.ProgressBar] through its constructor, the
    attributes [widgets], [fd], [maxval] and [currval], and the methods
    [start], [update] and [finish].  The package is not part of the
    repository; the record below keeps those attributes and the methods
    follow the package (version 2): [start] replaces a missing [maxval] by
    100 and then calls [update(0)]; [update(value)] raises [ValueError]
    unless [0 <= value <= maxval] and otherwise stores the value;
    [finish] calls [update(maxval)].  Rendering itself is not modelled
    (the terminal width, rescaled on lines 138 and 197, only affects it). *)
Module progressbar.

Inductive widget :=
| Text (s : string)
| SimpleProgress
| Percentage
| AnimatedMarker
| Bar
| FileTransferSpeed.

(** Where a bar writes: [sys.stderr] by default, a [Writer] at a fixed
    screen location, or the file opened on [os.devnull]. *)
Inductive fd_t :=
| Stderr
| Writer (location : Z * Z)
| DevNull.

Record ProgressBar := mk {
  widgets : list widget;
  maxval : option Z;
  currval : Z;
  fd : fd_t
}.

Definition _DEFAULT_MAXVAL : Z := 100.

(** [ProgressBar(widgets=ws, maxval=m)] *)
Definition new (ws : list widget) (m : option Z) : ProgressBar :=
  {| widgets := ws; maxval := m; currval := 0; fd := Stderr |}.

Definition set_widgets (b : ProgressBar) (ws : list widget) : ProgressBar :=
  {| widgets := ws; maxval := maxval b; currval := currval b; fd := fd b |}.

Definition set_fd (b : ProgressBar) (f : fd_t) : ProgressBar :=
  {| widgets := widgets b; maxval := maxval b; currval := currval b; fd := f |}.

Definition set_maxval (b : ProgressBar) (m : option Z) : ProgressBar :=
  {| widgets := widgets b; maxval := m; currval := currval b; fd := fd b |}.

Definition set_currval (b : ProgressBar) (v : Z) : ProgressBar :=
  {| widgets := widgets b; maxval := maxval b; currval := v; fd := fd b |}.

Definition update (b : ProgressBar) (value : Z) : result ProgressBar :=
  match maxval b with
  | None => Raise TypeError
  | Some m =>
      if (0 <=? value) && (value <=? m) then Ok (set_currval b value)
      else Raise ValueError
  end.

Definition start (b : ProgressBar) : result ProgressBar :=
  let b := match maxval b with
           | None => set_maxval b (Some _DEFAULT_MAXVAL)
           | Some _ => b
           end in
  match maxval b with
  | Some m => if m <? 0 then Raise ValueError else update b 0
  | None => update b 0
  end.

Definition finish (b : ProgressBar) : result ProgressBar :=
  match maxval b with
  | Some m => update b m
  | None => Ok b
  end.

End progressbar.
Import progressbar.

(** [TERM.bold] and [TERM.yellow] are escape strings of the terminal. *)
Definition TERM_bold : widget := Text "<bold>".
Definition TERM_yellow : widget := Text "<yellow>".

Definition MAIN_BAR_WIDGETS : list widget :=
  [Text "Tasks complete: "; SimpleProgress; Text " ("; Percentage; Text ") ";
   AnimatedMarker].

Definition SUB_BAR_WIDGETS : list widget :=
  [Text ": "; Text " ("; Percentage; Text ") "; Bar; FileTransferSpeed].

(** ** The HTTP layer ([aiohttp]) *)

(** A response: its status, its headers in order, and its body as the
    chunks the stream delivers, followed by [stream_error] when the
    transfer breaks off after them. *)
Record response := mk_response {
  status : Z;
  headers : list (string * string);
  chunks : list string;
  stream_error : option exn
}.

(** [resp.headers.get(name, None)]: header names compare without case and
    the first match wins. *)
Definition headers_get (h : list (string * string)) (name : string) : option string :=
  snd <$> List.find (fun kv => String.eqb (str.lower (fst kv)) (str.lower name)) h.

(** ** The world the program runs in *)

Inductive log_record :=
| LogDownloading (url output_folder : string)
| LogGotFilename (filename : option string) (base : string)
| LogDownloadFailed (url : string) (e : exn)
| LogWriteFailed (e : exn)
| LogFetching (url : string)
| LogGotResponse (status : Z)
| LogFetchFailed (e : exn)
| LogExtracting
| LogGotZipLinks (n : Z).

Inductive level := DEBUG | INFO | ERROR.

Definition record_level (r : log_record) : level :=
  match r with
  | LogDownloading _ _ | LogGotFilename _ _ | LogFetching _ | LogGotResponse _ => DEBUG
  | LogExtracting | LogGotZipLinks _ => INFO
  | LogDownloadFailed _ _ | LogWriteFailed _ | LogFetchFailed _ => ERROR
  end.

(** A progress bar object is named by its position in the store [bars]. *)
Definition bar_ref := nat.

(** A call of a [ProgressBar] method. *)
Inductive bar_call :=
| CallStart (r : bar_ref)
| CallUpdate (r : bar_ref) (value : Z)
| CallFinish (r : bar_ref).
Arguments CallStart r%_nat.
Arguments CallUpdate r%_nat value%_Z.
Arguments CallFinish r%_nat.

(** [pathlib.Path(output_folder, filename)] is kept as its two arguments:
    a path names what the program asked for.  Which file of the disk that
    is is left to the file system (an absolute [filename] leaves the
    folder, and two paths can name one file), so nothing is stated about
    files other than the one asked for. *)
Definition path := (string * string)%type.

Record world := mk_world {
  (** the global [PROGRESS_MANAGER] *)
  PROGRESS_MANAGER : ProgressBarManager.t bar_ref;
  (** the progress bar objects created so far *)
  bars : list ProgressBar;
  (** the method calls made on progress bars, oldest first *)
  bar_calls : list bar_call;
  (** the records handed to [LOGGER], oldest first *)
  log : list log_record;
  (** what has been written to the files opened, by the path asked for *)
  files : gmap path string;
  (** the URLs requested with [session.get], oldest first *)
  requests : list string;
  (** the calls of [download_file], oldest first *)
  downloads : list (string * string)
}.

(** ** The monad of effects: state and exceptions *)

Definition M (A : Type) : Type := world -> result A * world.

Definition ret {A} (a : A) : M A := fun w => (Ok a, w).
Definition raise {A} (e : exn) : M A := fun w => (Raise e, w).
Definition bind {A B} (m : M A) (k : A -> M B) : M B :=
  fun w => match m w with
           | (Ok a, w') => k a w'
           | (Raise e, w') => (Raise e, w')
           end.
Definition lift {A} (r : result A) : M A := fun w => (r, w).

Declare Scope M_scope.
Delimit Scope M_scope with M.
Bind Scope M_scope with M.
Notation "x <- m ;; k" := (bind m (fun x => k))
  (at level 100, m at next level, right associativity) : M_scope.
Notation "m ;;; k" := (bind m (fun _ => k))
  (at level 100, right associativity) : M_scope.
Local Open Scope M_scope.

(** [try: m except ...: h]: [h e] is the handler of the first [except]
    clause that matches [e], if any. *)
Definition try_except {A} (m : M A) (h : exn -> option (M A)) : M A :=
  fun w => match m w with
           | (Ok a, w') => (Ok a, w')
           | (Raise e, w') =>
               match h e with
               | Some k => k w'
               | None => (Raise e, w')
               end
           end.

(** [with cm as x: body] for a context manager made by
    [contextlib.contextmanager] from a generator with one [yield] that is
    not inside a [try]: [enter] is the code up to the [yield] and returns
    the generator's local variables, [exit] is the code after it.  When
    the body raises, the exception is thrown into the generator at the
    [yield] and leaves it at once: the code after the [yield] does not
    run. *)
Definition with_contextmanager {L A} (enter : M L) (exit : L -> M unit)
    (body : L -> M A) : M A :=
  fun w => match enter w with
           | (Raise e, w1) => (Raise e, w1)
           | (Ok l, w1) =>
               match body l w1 with
               | (Ok a, w2) =>
                   match exit l w2 with
                   | (Ok _, w3) => (Ok a, w3)
                   | (Raise e, w3) => (Raise e, w3)
                   end
               | (Raise e, w2) => (Raise e, w2)
               end
           end.

(** ** Effects on the world *)

Definition set_manager (w : world) (m : ProgressBarManager.t bar_ref) : world :=
  mk_world m (bars w) (bar_calls w) (log w) (files w) (requests w) (downloads w).
Definition set_bars (w : world) (bs : list ProgressBar) : world :=
  mk_world (PROGRESS_MANAGER w) bs (bar_calls w) (log w) (files w) (requests w) (downloads w).
Definition add_bar_call (w : world) (c : bar_call) : world :=
  mk_world (PROGRESS_MANAGER w) (bars w) (bar_calls w ++ [c]) (log w) (files w)
           (requests w) (downloads w).
Definition add_log (w : world) (r : log_record) : world :=
  mk_world (PROGRESS_MANAGER w) (bars w) (bar_calls w) (log w ++ [r]) (files w)
           (requests w) (downloads w).
Definition set_files (w : world) (fs : gmap path string) : world :=
  mk_world (PROGRESS_MANAGER w) (bars w) (bar_calls w) (log w) fs (requests w) (downloads w).
Definition add_request (w : world) (url : string) : world :=
  mk_world (PROGRESS_MANAGER w) (bars w) (bar_calls w) (log w) (files w)
           (requests w ++ [url]) (downloads w).
Definition add_download (w : world) (c : string * string) : world :=
  mk_world (PROGRESS_MANAGER w) (bars w) (bar_calls w) (log w) (files w)
           (requests w) (downloads w ++ [c]).

(** [LOGGER.debug], [LOGGER.info] and [LOGGER.error] *)
Definition LOGGER (r : log_record) : M unit := fun w => (Ok tt, add_log w r).

(** A new progress bar object. *)
Definition ProgressBar_new (ws : list widget) (m : option Z) : M bar_ref :=
  fun w => (Ok (length (bars w)), set_bars w (bars w ++ [progressbar.new ws m])).

Global Instance ProgressBar_inhabited : Inhabited ProgressBar :=
  populate (progressbar.new [] None).

(** Reading and changing a progress bar object.  References come from
    [ProgressBar_new] only, so they are never dangling. *)
Definition bar_get (r : bar_ref) : M ProgressBar :=
  fun w => (Ok (bars w !!! r), w).
Definition bar_modify (r : bar_ref) (f : ProgressBar -> ProgressBar) : M unit :=
  fun w => (Ok tt, set_bars w (alter f r (bars w))).

(** A method of the package called on the object [r]: the call is
    recorded, and the object changes when the method returns. *)
Definition bar_method (c : bar_call) (r : bar_ref)
    (f : ProgressBar -> result ProgressBar) : M unit :=
  fun w =>
    let w := add_bar_call w c in
    match f (bars w !!! r) with
    | Ok b => (Ok tt, set_bars w (<[r := b]> (bars w)))
    | Raise e => (Raise e, w)
    end.

Definition bar_start (r : bar_ref) : M unit :=
  bar_method (CallStart r) r progressbar.start.
Definition bar_update (r : bar_ref) (value : Z) : M unit :=
  bar_method (CallUpdate r value) r (fun b => progressbar.update b value).
Definition bar_finish (r : bar_ref) : M unit :=
  bar_method (CallFinish r) r progressbar.finish.

(** ** The context managers of [ProgressBarManager] *)

(** [install_main], up to its [yield] and after it. *)
Definition install_main_enter (progress_bar : bar_ref) : M bar_ref :=
  self <- (fun w => (Ok (PROGRESS_MANAGER w), w)) ;;
  bar_modify progress_bar
    (fun b => set_fd b (Writer (ProgressBarManager._main_coords self))) ;;;
  bar_modify progress_bar (fun b => set_widgets b (TERM_bold :: widgets b)) ;;;
  bar_start progress_bar ;;;
  ret progress_bar.

Definition install_main_exit (progress_bar : bar_ref) : M unit :=
  bar_finish progress_bar.

Definition install_main {A} (progress_bar : bar_ref) (body : bar_ref -> M A) : M A :=
  with_contextmanager (install_main_enter progress_bar) install_main_exit body.

(** [self._alloc_slot()] on the global manager. *)
Definition alloc_slot : M (option Z) :=
  fun w => (ProgressBarManager._alloc_slot (PROGRESS_MANAGER w), w).

(** [self._lines[slot] = progress_bar] *)
Definition set_line (slot : Z) (v : option bar_ref) : M unit :=
  fun w => match ProgressBarManager.set_line (PROGRESS_MANAGER w) slot v with
           | Ok m => (Ok tt, set_manager w m)
           | Raise e => (Raise e, w)
           end.

(** [self._free_slot(slot)] *)
Definition free_slot (slot : Z) : M unit :=
  fun w => match ProgressBarManager._free_slot (PROGRESS_MANAGER w) slot with
           | Ok m => (Ok tt, set_manager w m)
           | Raise e => (Raise e, w)
           end.

(** [install_sub_bar], up to its [yield]: the generator's locals are
    [slot] and [progress_bar]. *)
Definition install_sub_bar_enter (progress_bar : bar_ref) : M (option Z * bar_ref) :=
  slot <- alloc_slot ;;
  match slot with
  | Some s =>
      set_line s (Some progress_bar) ;;;
      bar_modify progress_bar
        (fun b => set_widgets b (Text (pretty s +:+ ": ") :: widgets b)) ;;;
      self <- (fun w => (Ok (PROGRESS_MANAGER w), w)) ;;
      bar_modify progress_bar
        (fun b => set_fd b (Writer (ProgressBarManager._get_sub_line self s)))
  | None =>
      bar_modify progress_bar (fun b => set_fd b DevNull)
  end ;;;
  bar_modify progress_bar (fun b => set_widgets b (TERM_yellow :: widgets b)) ;;;
  bar_start progress_bar ;;;
  ret (slot, progress_bar).

(** [install_sub_bar], after its [yield]. *)
Definition install_sub_bar_exit (l : option Z * bar_ref) : M unit :=
  let (slot, progress_bar) := l in
  bar_finish progress_bar ;;;
  match slot with
  | Some s => free_slot s
  | None => ret tt
  end.

Definition install_sub_bar {A} (progress_bar : bar_ref)
    (body : option Z * bar_ref -> M A) : M A :=
  with_contextmanager (install_sub_bar_enter progress_bar) install_sub_bar_exit body.

(** ** The download task and the orchestrator *)

Section Program.

(** The collaborators outside the program: the HTTP server behind
    [session.get]; the file system behind [aiofiles.open] (an exception
    when the file cannot be opened for writing) and behind
    [output_file.write] (the error number of the [OSError] when the write
    of [chunk] to the file [p], which holds [cur], fails); the decoding of
    a body by [resp.text()] in the charset that the headers and the body
    give ([None] when the body is not valid in it); and the HTML parser
    ([soup.findAll("a", href=True)], as the [href] values in document
    order). *)
Variable http_get : string -> result response.
Variable open_wb : path -> option exn.
Variable write_error : forall (p : path) (cur chunk : string), option string.
Variable decode : list (string * string) -> string -> option string.
Variable findAll_a_href : string -> list string.

(** [await session.get(url)] *)
Definition session_get (url : string) : M response :=
  fun w => (http_get url, add_request w url).

(** [pathlib.Path(output_folder, filename)]: a [filename] that is [None]
    raises [TypeError]. *)
Definition pathlib_Path (output_folder : string) (filename : option string) : result path :=
  match filename with
  | Some f => Ok (output_folder, f)
  | None => Raise TypeError
  end.

(** [async with aiofiles.open(p, "wb") as output_file: body]: the file is
    created or emptied, and closed on the way out, however the body
    ends. *)
Definition with_open_wb {A} (p : path) (body : path -> M A) : M A :=
  match open_wb p with
  | Some e => raise e
  | None =>
      (fun w => (Ok tt, set_files w (<[p := ""]> (files w)))) ;;;
      body p
  end.

(** [await output_file.write(chunk)]: the chunk is appended, or the write
    fails with an [OSError] and the file is left as it was. *)
Definition file_write (p : path) (chunk : string) : M unit :=
  fun w =>
    let cur := default "" (files w !! p) in
    match write_error p cur chunk with
    | Some errno => (Raise (OSError errno), w)
    | None => (Ok tt, set_files w (<[p := cur +:+ chunk]> (files w)))
    end.

(** [async for chunk, _ in resp.content.iter_chunks(): body] *)
Fixpoint for_chunks (cs : list string) (err : option exn) (body : string -> M unit) : M unit :=
  match cs with
  | [] => match err with
          | Some e => raise e
          | None => ret tt
          end
  | c :: r => body c ;;; for_chunks r err body
  end.

(** The truth value of an optional string and of an optional integer. *)
Definition truthy_str (s : option string) : bool :=
  match s with
  | Some s => negb (String.eqb s "")
  | None => false
  end.

Definition truthy_int (n : option Z) : bool :=
  match n with
  | Some n => negb (n =? 0)
  | None => false
  end.

(** Lines 117 to 128: the name of the output file. *)
Definition resolve_filename (url : string) (resp : response) : M (option string) :=
  let base := basename url in
  let content_dispo := headers_get (headers resp) "Content-Disposition" in
  if truthy_str content_dispo then
    let '(_, params) := cgi.parse_header (default "" content_dispo) in
    let filename := params !! "filename" in
    LOGGER (LogGotFilename filename base) ;;;
    ret filename
  else
    ret (Some base).

(** Lines 130 and 131: the expected size. *)
Definition resolve_file_size (resp : response) : M (option Z) :=
  let content_length := headers_get (headers resp) "Content-Length" in
  if truthy_str content_length then
    n <- lift (str.int (default "" content_length)) ;;
    ret (Some n)
  else
    ret None.

(** Lines 143 to 146: the body of the loop over the chunks. *)
Definition stream_body (file_size : option Z) (chunks_bar : bar_ref)
    (output_file : path) (chunk : string) : M unit :=
  (if truthy_int file_size then
     b <- bar_get chunks_bar ;;
     bar_update chunks_bar (currval b + str.len chunk)
   else ret tt) ;;;
  file_write output_file chunk.

(** Lines 142 to 146: the loop over the chunks. *)
Definition stream_chunks (resp : response) (file_size : option Z)
    (chunks_bar : bar_ref) (output_file : path) : M unit :=
  for_chunks (chunks resp) (stream_error resp)
    (stream_body file_size chunks_bar output_file).

(** The handlers of [download_file]. *)
Definition download_handlers (url : string) (exc : exn) : option (M unit) :=
  match exc with
  | ClientError _ | TimeoutError => Some (LOGGER (LogDownloadFailed url exc))
  | OSError _ => Some (LOGGER (LogWriteFailed exc))
  | _ => None
  end.

(** Lines 133 to 146: the output file is opened, the progress bar is made
    and installed, and the chunks are streamed. *)
Definition stream_to_file (resp : response) (file_size : option Z) (p : path) : M unit :=
  with_open_wb p (fun output_file =>
    chunks_bar <- ProgressBar_new (Text (snd p) :: SUB_BAR_WIDGETS) file_size ;;
    install_sub_bar chunks_bar (fun _ =>
      stream_chunks resp file_size chunks_bar output_file)).

(** The body of [download_file]. *)
Definition download_file_body (url output_folder : string) : M unit :=
  try_except
    (LOGGER (LogDownloading url output_folder) ;;;
     resp <- session_get url ;;
     filename <- resolve_filename url resp ;;
     file_size <- resolve_file_size resp ;;
     p <- lift (pathlib_Path output_folder filename) ;;
     stream_to_file resp file_size p)
    (download_handlers url).

(** [download_file] as the orchestrator calls it.  With a single call in
    flight the semaphore of [bound_concurrency] is free; the limiter is
    modelled on its own in [Limiter]. *)
Definition download_file (url output_folder : string) : M unit :=
  (fun w => (Ok tt, add_download w (url, output_folder))) ;;;
  download_file_body url output_folder.

(** [resp.raise_for_status()]: a status of 400 or more raises
    [ClientResponseError]. *)
Definition raise_for_status (resp : response) : result unit :=
  if 400 <=? status resp then Raise (ClientError (ClientResponseError (status resp)))
  else Ok tt.

(** The bytes of the body when the stream delivers it whole. *)
Definition whole_body (resp : response) : string :=
  fold_right String.append "" (chunks resp).

(** [await resp.text()]: the body is read to its end, which raises the
    error that breaks the transfer, and is then decoded, which raises
    [UnicodeDecodeError] when it is not valid in its charset. *)
Definition resp_text (resp : response) : result string :=
  match stream_error resp with
  | Some e => Raise e
  | None =>
      match decode (headers resp) (whole_body resp) with
      | Some text => Ok text
      | None => Raise ValueError
      end
  end.

Definition fetch (url : string) : M string :=
  LOGGER (LogFetching url) ;;;
  resp <- session_get url ;;
  LOGGER (LogGotResponse (status resp)) ;;;
  lift (raise_for_status resp) ;;;
  lift (resp_text resp).

Definition listing_url : string := "http://speedtest.tele2.net/".

(** The handler of [scrape] around [fetch]. *)
Definition scrape_handlers (exc : exn) : option (M (option string)) :=
  match exc with
  | ClientError _ | TimeoutError => Some (LOGGER (LogFetchFailed exc) ;;; ret None)
  | _ => None
  end.

(** Lines 188 to 193: the selection of the target link. *)
Definition zip_links (hrefs : list string) : list string :=
  List.filter (fun href => str.endswith href ".zip") hrefs.

Definition select_target (all_urls : list string) : result string :=
  py.list_getitem (List.filter (fun href => str.startswith href "100MB") all_urls) 0.

Definition scrape : M unit :=
  let url := listing_url in
  fetched <- try_except (t <- fetch url ;; ret (Some t)) scrape_handlers ;;
  match fetched with
  | None => ret tt
  | Some resp_text =>
      LOGGER LogExtracting ;;;
      let all_files := zip_links (findAll_a_href resp_text) in
      LOGGER (LogGotZipLinks (Z.of_nat (length all_files))) ;;;
      let all_urls := all_files in
      target_url <- lift (select_target all_urls) ;;
      coros_bar <- ProgressBar_new MAIN_BAR_WIDGETS (Some 1) ;;
      install_main coros_bar (fun _ =>
        download_file (url +:+ target_url) "/tmp/")
  end.

End Program.

(** The world [main] starts [scrape] in: the manager is built with
    [main_coords=(0, len(BANNER.splitlines()) + 1)], the banner having six
    lines, and with the default number of lines. *)
Definition BANNER_lines : Z := 6.

Definition initial_world (m : ProgressBarManager.t bar_ref) : world :=
  mk_world m [] [] [] ∅ [] [].

Definition main_manager : result (ProgressBarManager.t bar_ref) :=
  ProgressBarManager.__init__ (Some (0, BANNER_lines + 1)) None.

(** ** The concurrency limiter

    [bound_concurrency(size)] makes one [asyncio.Semaphore(size)] and wraps
    the coroutine function so that every call runs as
    [async with sem: return await func(...)].  Calls interleave at the
    [async with]: a call is [Pending] until it has acquired the semaphore,
    [Streaming] while [func] runs, and [Exited] with the result of [func]
    once the [async with] block is left, which releases the semaphore
    whether [func] returned or raised.  The event loop is modelled by the
    schedule, the list of the actions it takes; it may pick any pending
    call when the semaphore is free (the loop itself wakes waiters in
    arrival order, which is one of these choices). *)
Module Limiter.

(** [asyncio.Semaphore] *)
Record Semaphore := mk_sem { _value : Z }.

(** [Semaphore(value)] raises [ValueError] for a negative value. *)
Definition Semaphore_new (value : Z) : result Semaphore :=
  if value <? 0 then Raise ValueError else Ok (mk_sem value).

Definition locked (sem : Semaphore) : bool := _value sem =? 0.

(** [acquire] without waiting: [None] when the caller has to wait. *)
Definition acquire (sem : Semaphore) : option Semaphore :=
  if locked sem then None else Some (mk_sem (_value sem - 1)).

Definition release (sem : Semaphore) : Semaphore := mk_sem (_value sem + 1).

Inductive phase :=
| Pending
| Streaming
| Exited (r : result unit).

Record state := mk_state {
  sem : Semaphore;
  tasks : list phase
}.

Inductive action :=
| Enter (i : nat)
| Exit (i : nat) (r : result unit).

(** One action of the event loop; [None] when the action is not enabled. *)
Definition step (a : action) (s : state) : option state :=
  match a with
  | Enter i =>
      match tasks s !! i with
      | Some Pending =>
          match acquire (sem s) with
          | Some sem' => Some (mk_state sem' (<[i := Streaming]> (tasks s)))
          | None => None
          end
      | _ => None
      end
  | Exit i r =>
      match tasks s !! i with
      | Some Streaming => Some (mk_state (release (sem s)) (<[i := Exited r]> (tasks s)))
      | _ => None
      end
  end.

Definition run (sched : list action) (s : state) : option state :=
  fold_left (fun o a => match o with Some s => step a s | None => None end)
            sched (Some s).

(** [T] calls of a function decorated with [bound_concurrency(size)]. *)
Definition start (size : Z) (T : nat) : result state :=
  match Semaphore_new size with
  | Ok sem => Ok (mk_state sem (replicate T Pending))
  | Raise e => Raise e
  end.

(** The bound of [download_file]: [@bound_concurrency(10)]. *)
Definition download_file_bound : Z := 10.

Definition is_streaming (p : phase) : bool :=
  match p with Streaming => true | _ => false end.

(** The number of calls between their acquire and their release. *)
Definition streaming (ts : list phase) : nat :=
  length (List.filter is_streaming ts).

Definition is_enter (i : nat) (a : action) : bool :=
  match a with Enter j => Nat.eqb i j | Exit _ _ => false end.
Definition is_exit (i : nat) (a : action) : bool :=
  match a with Exit j _ => Nat.eqb i j | Enter _ => false end.
Definition any_enter (a : action) : bool :=
  match a with Enter _ => true | Exit _ _ => false end.
Definition any_exit (a : action) : bool :=
  match a with Exit _ _ => true | Enter _ => false end.

(** How often call [i] acquired and released in a schedule, and how many
    acquisitions and releases the schedule has in all. *)
Definition acquisitions_of (i : nat) (sched : list action) : nat :=
  length (List.filter (is_enter i) sched).
Definition releases_of (i : nat) (sched : list action) : nat :=
  length (List.filter (is_exit i) sched).
Definition acquisitions (sched : list action) : nat :=
  length (List.filter any_enter sched).
Definition releases (sched : list action) : nat :=
  length (List.filter any_exit sched).

(** The contribution of a phase to [streaming]. *)
Definition weight (p : phase) : nat := if is_streaming p then 1 else 0.

(** What a schedule has done to call [i], by the phase the call is in. *)
Definition counts_agree (sched : list action) (s : state) (i : nat) : Prop :=
  match tasks s !! i with
  | Some Streaming => acquisitions_of i sched = 1%nat /\ releases_of i sched = 0%nat
  | Some (Exited _) => acquisitions_of i sched = 1%nat /\ releases_of i sched = 1%nat
  | Some Pending | None => acquisitions_of i sched = 0%nat /\ releases_of i sched = 0%nat
  end.

Record invariant (size : Z) (sched : list action) (s : state) : Prop := {
  inv_value : _value (sem s) = size - Z.of_nat (streaming (tasks s));
  inv_free : 0 <= _value (sem s);
  inv_balance : acquisitions sched = (releases sched + streaming (tasks s))%nat;
  inv_counts : forall i, counts_agree sched s i
}.

End Limiter.

(** ** Vocabulary of the properties *)

(** The running totals of a list of lengths, from the value [v]. *)
Fixpoint prefix_sums (v : Z) (ls : list Z) : list Z :=
  match ls with
  | [] => []
  | l :: r => (v + l) :: prefix_sums (v + l) r
  end.

(** A status in the range 200 to 299. *)
Definition is_2xx (status : Z) : bool := (200 <=? status) && (status <? 300).

(** The exceptions that the [except] clauses around [fetch] and the first
    [except] clause of [download_file] catch. *)
Definition is_client_or_timeout (e : exn) : bool :=
  match e with
  | ClientError _ | TimeoutError => true
  | _ => false
  end.

(** A computation leaves a part of the world as it found it. *)
Definition frames {A X} (part : world -> X) (m : M A) : Prop :=
  forall w, part (snd (m w)) = part w.

(** Two worlds that differ at most in the maximum and the value of their
    progress bars. *)
Definition same_but_bar_values (w1 w2 : world) : Prop :=
  PROGRESS_MANAGER w1 = PROGRESS_MANAGER w2 /\
  List.map widgets (bars w1) = List.map widgets (bars w2) /\
  List.map fd (bars w1) = List.map fd (bars w2) /\
  bar_calls w1 = bar_calls w2 /\
  log w1 = log w2 /\
  files w1 = files w2 /\
  requests w1 = requests w2 /\
  downloads w1 = downloads w2.

(** The call is an [update]. *)
Definition is_update (c : bar_call) : bool :=
  match c with
  | CallUpdate _ _ => true
  | _ => false
  end.

(** The call is a [finish]. *)
Definition is_finish (c : bar_call) : bool :=
  match c with
  | CallFinish _ => true
  | _ => false
  end.

(** The directory of a URL: the URL up to and including its last slash.
    A link read against a page replaces what follows the last slash of
    the URL of the page. *)
Definition directory (u : string) : string :=
  str.slice_to u (str.rfind u "/" + 1).

(** A string starts with a scheme (RFC 3986, 3.1): a letter, then
    letters, digits, [+], [-] or [.], then a colon. *)
Definition is_letter (c : ascii) : bool :=
  let n := nat_of_ascii c in
  ((65 <=? n) && (n <=? 90) || (97 <=? n) && (n <=? 122))%nat.

Definition is_scheme_char (c : ascii) : bool :=
  is_letter c || str.is_digit c || Ascii.eqb c "+" || Ascii.eqb c "-" || Ascii.eqb c ".".

Fixpoint scheme_ends (s : string) : bool :=
  match s with
  | EmptyString => false
  | String c r => if Ascii.eqb c ":" then true else is_scheme_char c && scheme_ends r
  end.

Definition has_scheme (s : string) : bool :=
  match s with
  | EmptyString => false
  | String c r => is_letter c && scheme_ends r
  end.

(** The href is relative: it names no scheme and does not start with a
    slash, so it is meant to be read from the directory of the page. *)
Definition is_relative (href : string) : bool :=
  negb (has_scheme href) && negb (str.startswith href "/").

(** The writes of the loop over the chunks [cs] to the file [p], which
    holds [cur]: the chunks written before the first write that fails,
    and the chunk and the error number of that write, if one fails. *)
Fixpoint writes (write_error : path -> string -> string -> option string)
    (p : path) (cur : string) (cs : list string) : list string * option (string * string) :=
  match cs with
  | [] => ([], None)
  | c :: r =>
      match write_error p cur c with
      | Some errno => ([], Some (c, errno))
      | None =>
          let ws := writes write_error p (cur +:+ c) r in
          (c :: fst ws, snd ws)
      end
  end.

(** The chunks handed to [write], the one of the failing write included:
    the loop updates the bar before it writes. *)
Definition attempted (ws : list string * option (string * string)) : list string :=
  (fst ws ++ match snd ws with Some (c, _) => [c] | None => [] end)%list.

(** The exception of the failing write. *)
Definition write_exn (ws : list string * option (string * string)) : option exn :=
  match snd ws with
  | Some (_, errno) => Some (OSError errno)
  | None => None
  end.

(** The exception that ends the loop over the chunks: that of the first
    write that fails, or else that of the stream after its last chunk. *)
Definition loop_exn (ws : list string * option (string * string)) (err : option exn)
    : option exn :=
  match write_exn ws with
  | Some e => Some e
  | None => err
  end.

(** The failure, if any, of the writes of the chunks [cs] to the file
    [p] just opened, which holds nothing. *)
Definition write_failure (write_error : path -> string -> string -> option string)
    (p : path) (cs : list string) : option exn :=
  write_exn (writes write_error p "" cs).

(** ** Inputs of the examples *)

Module Examples.

Definition file_url : string := "http://speedtest.tele2.net/100MB.zip".

(** A file system on which every file can be opened for writing, and a
    disk that takes every write. *)
Definition open_ok : path -> option exn := fun _ => None.
Definition write_ok : path -> string -> string -> option string := fun _ _ _ => None.

(** A disk that is full once a file holds three bytes. *)
Definition disk_full : path -> string -> string -> option string :=
  fun _ cur _ => if (3 <=? String.length cur)%nat then Some "ENOSPC" else None.

(** Pages in a charset in which every body is valid and reads as itself. *)
Definition decode_ok : list (string * string) -> string -> option string :=
  fun _ body => Some body.

(** Pages whose bodies are not valid in their charset. *)
Definition decode_fails : list (string * string) -> string -> option string :=
  fun _ _ => None.

(** A server whose every response is [resp]. *)
Definition serve (resp : response) : string -> result response := fun _ => Ok resp.

(** A parser that finds the given links on every page. *)
Definition links (hrefs : list string) : string -> list string := fun _ => hrefs.

(** Six bytes announced, three delivered, then the transfer breaks. *)
Definition broken_transfer : response :=
  mk_response 200 [("Content-Length", "6")] ["abc"]
              (Some (ClientError ClientPayloadError)).

(** The same file delivered whole. *)
Definition whole_transfer : response :=
  mk_response 200 [("Content-Length", "6")] ["abc"; "def"] None.

(** A response whose [Content-Disposition] header has no [filename]. *)
Definition attachment_without_name : response :=
  mk_response 200 [("Content-Disposition", "attachment")] ["abc"] None.

(** A response that announces a size of zero and has an empty body, and
    the same response without the announcement. *)
Definition zero_length : response :=
  mk_response 200 [("Content-Length", "0")] [] None.
Definition no_length : response :=
  mk_response 200 [] [] None.

(** A listing page, and links none of which starts with [100MB]. *)
Definition listing_page : response :=
  mk_response 200 [] ["<html>"] None.
Definition no_match_links : list string := ["a.zip"; "200MB.zip"; "index.html"].

(** A listing page answered with the status 300. *)
Definition multiple_choices_page : response :=
  mk_response 300 [] ["<html>"] None.
Definition fixture_links : list string := ["a.zip"; "100MB-1.zip"; "200MB.zip"].

(** The manager that [main] builds. *)
Definition manager : ProgressBarManager.t bar_ref :=
  ProgressBarManager.mk (0, 7) (4, 8) (replicate 10 None).

(** A world with one started progress bar of maximum 7. *)
Definition one_bar_world : world :=
  mk_world manager
           [progressbar.mk [Text "f"] (Some 7) 0 DevNull] [] [] ∅ [] [].

Definition two_chunks : response :=
  mk_response 200 [("Content-Length", "7")] ["abc"; "defg"] None.

End Examples.

(** ** Vocabulary of the further properties *)

(** The selection rule of [scrape]: a link that ends with [.zip] and
    starts with [100MB]. *)
Definition matches_rule (href : string) : bool :=
  str.endswith href ".zip" && str.startswith href "100MB".

(** The number of bytes of a list of chunks. *)
Definition total_len (cs : list string) : Z :=
  fold_right (fun c n => str.len c + n) 0 cs.

(** The announced size, if any, is zero or is not exceeded by the body. *)
Definition fits (file_size : option Z) (total : Z) : Prop :=
  match file_size with
  | None => True
  | Some n => n = 0 \/ total <= n
  end.

(** The exceptions that an [except] clause of [download_file] catches. *)
Definition caught_by_download (e : exn) : bool :=
  match e with
  | ClientError _ | TimeoutError | OSError _ => true
  | _ => false
  end.

(** A computation raises only exceptions that satisfy [P]. *)
Definition raises_only {A} (P : exn -> bool) (m : M A) : Prop :=
  forall w e, fst (m w) = Raise e -> P e = true.

(** The exceptions of the [progressbar] methods. *)
Definition is_value_or_type_error (e : exn) : bool :=
  match e with
  | ValueError | TypeError => true
  | _ => false
  end.

(** The failures of the network: the exceptions that the [except] clause
    of [scrape] names, [aiohttp.ClientError] and [asyncio.TimeoutError]. *)
Definition network_error (e : exn) : bool :=
  match e with
  | ClientError _ | TimeoutError => true
  | _ => false
  end.

(** A computation keeps the first [n] progress bar objects as they are
    and drops none. *)
Definition keeps_bars {A} (n : nat) (m : M A) : Prop :=
  forall w, (n <= length (bars w))%nat ->
    take n (bars (snd (m w))) = take n (bars w) /\
    (length (bars w) <= length (bars (snd (m w))))%nat.

(** Every call of the limiter has left the wrapper. *)
Definition all_exited (ts : list Limiter.phase) : Prop :=
  Forall (fun p => exists r, p = Limiter.Exited r) ts.

(** The schedule that lets the calls [0 .. T-1] enter one after the
    other. *)
Definition enter_all (T : nat) : list Limiter.action :=
  List.map Limiter.Enter (seq 0 T).

(** The call has left the wrapper. *)
Definition is_exited (p : Limiter.phase) : bool :=
  match p with
  | Limiter.Exited _ => true
  | _ => false
  end.

(** The number of calls that have not left the wrapper yet. *)
Definition unfinished (ts : list Limiter.phase) : nat :=
  length (List.filter (fun p => negb (is_exited p)) ts).

(** The record that the [except] clauses of [download_file] log for a
    caught exception. *)
Definition error_record (url : string) (e : exn) : log_record :=
  match e with
  | OSError _ => LogWriteFailed e
  | _ => LogDownloadFailed url e
  end.

(** The world once [download_file] has resolved the name and the size:
    the call and the request are recorded and [seen] has been logged. *)
Definition world_at_stream (w : world) (url folder : string) (seen : list log_record) : world :=
  mk_world (PROGRESS_MANAGER w) (bars w) (bar_calls w) (log w ++ seen) (files w)
           (requests w ++ [url]) (downloads w ++ [(url, folder)]).

(** * Properties *)

(** ** The slot pool *)

Section PoolFacts.
Context {Bar : Type}.
Import ProgressBarManager.

Lemma None_in_false (l : list (option Bar)) :
  None_in l = false -> forall j x, l !! j = Some x -> x <> None.
Proof.
  induction l as [|h t IH]; intros Hn j x Hj; [done|].
  simpl in Hn. destruct h as [b|]; [|done].
  destruct j as [|j]; simpl in Hj.
  - by inversion Hj.
  - by apply (IH Hn j).
Qed.

Lemma None_in_true (l : list (option Bar)) :
  None_in l = true -> exists i, index_None l = Ok i.
Proof.
  induction l as [|h t IH]; intros Hn; [done|].
  destruct h as [b|]; simpl in *; [|by eexists].
  destruct (IH Hn) as [i ->]. by eexists.
Qed.

(** [index_None] finds the first empty slot. *)
Lemma index_None_lowest (l : list (option Bar)) (i : Z) :
  index_None l = Ok i ->
  0 <= i /\ l !! Z.to_nat i = Some None /\
  forall j, (j < Z.to_nat i)%nat -> exists b, l !! j = Some (Some b).
Proof.
  revert i. induction l as [|h t IH]; intros i Hi; [done|].
  destruct h as [b|]; simpl in Hi.
  - destruct (index_None t) as [k|] eqn:Hk; [|done].
    inversion Hi; subst i. destruct (IH k eq_refl) as (Hk0 & Hfree & Hlow).
    replace (Z.to_nat (1 + k)) with (S (Z.to_nat k)) by lia.
    split; [lia|]. split; [done|].
    intros [|j] Hj; simpl; [by eexists|]. apply Hlow. lia.
  - inversion Hi; subst i. split; [lia|]. split; [done|]. intros j Hj. simpl in Hj. lia.
Qed.

(** A store into the pool at an index within [-N .. N-1]. *)
Lemma list_setitem_in_range (l : list (option Bar)) (i : Z) (x : option Bar) :
  - Z.of_nat (length l) <= i < Z.of_nat (length l) ->
  py.list_setitem l i x = Ok (<[Z.to_nat (i mod Z.of_nat (length l)) := x]> l).
Proof.
  intros Hi. unfold py.list_setitem.
  destruct (Z.ltb_spec i 0).
  - replace (i mod Z.of_nat (length l)) with (i + Z.of_nat (length l)).
    + destruct (Z.leb_spec 0 (i + Z.of_nat (length l))); [|lia].
      destruct (Z.ltb_spec (i + Z.of_nat (length l)) (Z.of_nat (length l))); [done|lia].
    + apply (Z.mod_unique _ _ (-1)); lia.
  - rewrite Z.mod_small by lia.
    destruct (Z.leb_spec 0 i); [|lia].
    destruct (Z.ltb_spec i (Z.of_nat (length l))); [done|lia].
Qed.

Lemma list_setitem_out_of_range (l : list (option Bar)) (i : Z) (x : option Bar) :
  ~ (- Z.of_nat (length l) <= i < Z.of_nat (length l)) ->
  py.list_setitem l i x = Raise IndexError.
Proof.
  intros Hi. unfold py.list_setitem.
  destruct (Z.ltb_spec i 0).
  - destruct (Z.leb_spec 0 (i + Z.of_nat (length l))); [|done].
    destruct (Z.ltb_spec (i + Z.of_nat (length l)) (Z.of_nat (length l))); [lia|done].
  - destruct (Z.leb_spec 0 i); [|done].
    destruct (Z.ltb_spec i (Z.of_nat (length l))); [lia|done].
Qed.

End PoolFacts.

(** C5. [_alloc_slot] never raises; it returns the lowest index whose slot
    is empty (that slot is empty and every slot below it is occupied), and
    [None] exactly when no slot of the pool is empty.  In the pool that
    [main] builds, after three allocations (slots 0, 1 and 2) and the
    release of slot 1, the next allocation returns 1. *)
Theorem C5_alloc_slot_lowest_free :
  (forall (Bar : Type) (self : ProgressBarManager.t Bar),
     exists o, ProgressBarManager._alloc_slot self = Ok o /\
       match o with
       | Some i =>
           0 <= i /\
           ProgressBarManager._lines self !! Z.to_nat i = Some None /\
           forall j, (j < Z.to_nat i)%nat ->
                     exists b, ProgressBarManager._lines self !! j = Some (Some b)
       | None =>
           forall j x, ProgressBarManager._lines self !! j = Some x -> x <> None
       end) /\
  (forall (Bar : Type) (a b c : Bar),
     exists m0 m1 m2 m3 m4,
       ProgressBarManager.__init__ (Some (0, 7)) None = Ok m0 /\
       length (ProgressBarManager._lines m0) = 10%nat /\
       ProgressBarManager._alloc_slot m0 = Ok (Some 0) /\
       ProgressBarManager.set_line m0 0 (Some a) = Ok m1 /\
       ProgressBarManager._alloc_slot m1 = Ok (Some 1) /\
       ProgressBarManager.set_line m1 1 (Some b) = Ok m2 /\
       ProgressBarManager._alloc_slot m2 = Ok (Some 2) /\
       ProgressBarManager.set_line m2 2 (Some c) = Ok m3 /\
       ProgressBarManager._free_slot m3 1 = Ok m4 /\
       ProgressBarManager._alloc_slot m4 = Ok (Some 1)).
Proof.
  split.
  - intros Bar self. unfold ProgressBarManager._alloc_slot.
    destruct (ProgressBarManager.None_in (ProgressBarManager._lines self)) eqn:Hin.
    + destruct (None_in_true _ Hin) as [i Hi]. rewrite Hi.
      exists (Some i). split; [done|]. by apply index_None_lowest.
    + exists None. split; [done|]. by apply None_in_false.
  - intros Bar a b c. do 5 eexists. repeat split; reflexivity.
Qed.

(** C6, as the code has it.  [_free_slot] stores [None] at the index.  For
    an index within [-N .. N-1] (a negative index counts from the end of
    the pool) it succeeds, and when the slot is already empty the pool is
    left as it was; it raises [IndexError] exactly for the other indices. *)
Theorem C6_free_slot_amended (Bar : Type) (self : ProgressBarManager.t Bar) (slot : Z) :
  let N := Z.of_nat (length (ProgressBarManager._lines self)) in
  (- N <= slot < N ->
     ProgressBarManager._free_slot self slot
     = Ok (ProgressBarManager.set_lines self
             (<[Z.to_nat (slot mod N) := None]> (ProgressBarManager._lines self))) /\
     (ProgressBarManager._lines self !! Z.to_nat (slot mod N) = Some None ->
      ProgressBarManager._free_slot self slot = Ok self)) /\
  (~ (- N <= slot < N) ->
     ProgressBarManager._free_slot self slot = Raise IndexError).
Proof.
  intros N. unfold ProgressBarManager._free_slot, ProgressBarManager.set_line. split.
  - intros Hr. rewrite list_setitem_in_range by done. split; [done|].
    intros Hfree. rewrite list_insert_id by done. by destruct self.
  - intros Hr. by rewrite list_setitem_out_of_range.
Qed.

(** The amended C6 at a pool of three slots: freeing the occupied slot 2
    empties it, and index 3 raises. *)
Lemma C6_free_slot_amended_witness :
  let self := ProgressBarManager.mk (0, 7) (4, 8) [Some 5%nat; None; Some 6%nat] in
  ProgressBarManager._free_slot self 2
  = Ok (ProgressBarManager.mk (0, 7) (4, 8) [Some 5%nat; None; None]) /\
  ProgressBarManager._free_slot self 3 = Raise IndexError.
Proof.
  intros self. split.
  - apply (proj1 (C6_free_slot_amended nat self 2)). simpl. lia.
  - apply (proj2 (C6_free_slot_amended nat self 3)). simpl. lia.
Defined.

(** C6 as stated fails: freeing the already empty slot 1 succeeds and
    leaves the pool as it was, and the index -1, which is outside
    [0 .. N-1], succeeds and empties the last slot. *)
Lemma C6_free_slot_counterexample :
  let self := ProgressBarManager.mk (0, 7) (4, 8) [Some 5%nat; None; Some 6%nat] in
  ProgressBarManager._lines self !! 1%nat = Some None /\
  ProgressBarManager._free_slot self 1 = Ok self /\
  ProgressBarManager._free_slot self (-1)
  = Ok (ProgressBarManager.mk (0, 7) (4, 8) [Some 5%nat; None; None]).
Proof. repeat split. Qed.

(** ** The concurrency limiter *)

Module LimiterFacts.
Import Limiter.

Lemma run_snoc (p : list action) (a : action) (s : state) :
  run (p ++ [a]) s = match run p s with Some s' => step a s' | None => None end.
Proof. unfold run. by rewrite fold_left_app. Qed.

Lemma run_stuck (q : list action) :
  fold_left (fun o a => match o with Some s => step a s | None => None end) q None = None.
Proof. by induction q. Qed.

(** Every prefix of a schedule that runs also runs. *)
Lemma run_prefix (p q : list action) (s s' : state) :
  run (p ++ q) s = Some s' -> exists sp, run p s = Some sp.
Proof.
  unfold run. rewrite fold_left_app. intros H.
  destruct (fold_left _ p (Some s)) as [sp|]; [by eexists|].
  by rewrite run_stuck in H.
Qed.

(** Changing the phase of one call changes the count of streaming calls
    by the difference of the two phases. *)
Lemma streaming_insert (ts : list phase) (i : nat) (old new : phase) :
  ts !! i = Some old ->
  (streaming (<[i := new]> ts) + weight old = streaming ts + weight new)%nat.
Proof.
  revert i. induction ts as [|h t IH]; intros i Hi; [done|].
  destruct i as [|i]; simpl in Hi.
  - inversion Hi; subst h. unfold streaming, weight. simpl.
    destruct (is_streaming old), (is_streaming new); simpl; lia.
  - specialize (IH i Hi). unfold streaming in *. simpl.
    destruct (is_streaming h); simpl; lia.
Qed.

Lemma filter_snoc_length {A} (f : A -> bool) (l : list A) (a : A) :
  length (List.filter f (l ++ [a])) = (length (List.filter f l) + if f a then 1 else 0)%nat.
Proof.
  rewrite List.filter_app, length_app. simpl. destruct (f a); simpl; lia.
Qed.

Lemma invariant_start (size : Z) (T : nat) (s0 : state) :
  start size T = Ok s0 -> invariant size [] s0.
Proof.
  unfold start, Semaphore_new. destruct (Z.ltb_spec size 0); [done|].
  intros [= <-].
  assert (Hs : streaming (replicate T Pending) = 0%nat) by (induction T; auto).
  split; simpl.
  - rewrite Hs. lia.
  - done.
  - by rewrite Hs.
  - intros i. unfold counts_agree. simpl.
    destruct (replicate T Pending !! i) as [p|] eqn:Hp; [|done].
    apply lookup_replicate in Hp as [-> _]. done.
Qed.

Lemma invariant_step (size : Z) (sched : list action) (a : action) (s s' : state) :
  invariant size sched s -> step a s = Some s' -> invariant size (sched ++ [a]) s'.
Proof.
  intros [Hv Hf Hb Hc] Hstep. destruct a as [i|i r]; simpl in Hstep.
  - destruct (tasks s !! i) as [[| |]|] eqn:Hi; try done.
    unfold acquire, locked in Hstep.
    destruct (Z.eqb_spec (_value (sem s)) 0); [done|].
    inversion Hstep; subst s'; clear Hstep.
    pose proof (streaming_insert _ i _ Streaming Hi) as Hw. unfold weight in Hw. simpl in Hw.
    split; simpl.
    + lia.
    + lia.
    + unfold acquisitions, releases in *. rewrite !filter_snoc_length. simpl. lia.
    + intros j. specialize (Hc j). unfold counts_agree in *. simpl.
      unfold acquisitions_of, releases_of in *. rewrite !filter_snoc_length. simpl.
      destruct (Nat.eqb_spec j i) as [->|Hne].
      * rewrite Hi in Hc. rewrite list_lookup_insert_eq by by eapply lookup_lt_Some. lia.
      * rewrite list_lookup_insert_ne by done.
        destruct (tasks s !! j) as [[| |]|]; lia.
  - destruct (tasks s !! i) as [[| |]|] eqn:Hi; try done.
    inversion Hstep; subst s'; clear Hstep.
    pose proof (streaming_insert _ i _ (Exited r) Hi) as Hw. unfold weight in Hw. simpl in Hw.
    split; simpl.
    + lia.
    + lia.
    + unfold acquisitions, releases in *. rewrite !filter_snoc_length. simpl. lia.
    + intros j. specialize (Hc j). unfold counts_agree in *. simpl.
      unfold acquisitions_of, releases_of in *. rewrite !filter_snoc_length. simpl.
      destruct (Nat.eqb_spec j i) as [->|Hne].
      * rewrite Hi in Hc. rewrite list_lookup_insert_eq by by eapply lookup_lt_Some. lia.
      * rewrite list_lookup_insert_ne by done.
        destruct (tasks s !! j) as [[| |]|]; lia.
Qed.

(** The invariant holds after every schedule that runs. *)
Lemma invariant_run (size : Z) (T : nat) (sched : list action) (s0 s : state) :
  start size T = Ok s0 -> run sched s0 = Some s -> invariant size sched s.
Proof.
  intros Hs. revert s. induction sched as [|a p IH] using rev_ind; intros s Hr.
  - inversion Hr; subst. by eapply invariant_start.
  - rewrite run_snoc in Hr. destruct (run p s0) as [sp|] eqn:Hp; [|done].
    eapply invariant_step; eauto.
Qed.

End LimiterFacts.

(** C3. Calls of a function decorated with [bound_concurrency(size)], run
    under any schedule of the event loop from [T] pending calls: at most
    [size] calls are between acquire and release in the state reached and
    in every state on the way; after any prefix of the schedule the
    acquisitions exceed the releases by at most [size], so a call beyond
    the first [size] enters only after a release, and no call can enter
    while [size] calls are streaming; each call acquires at most once and
    releases at most once and only after acquiring; a call that has left
    the wrapper, with a result or with an exception, has acquired once and
    released once; and a streaming call can always leave, with any
    outcome of the wrapped function, which gives the ticket back. *)
Theorem C3_limiter_bound (size : Z) (T : nat) (sched : list Limiter.action)
    (s0 s : Limiter.state) :
  Limiter.start size T = Ok s0 ->
  Limiter.run sched s0 = Some s ->
  Z.of_nat (Limiter.streaming (Limiter.tasks s)) <= size /\
  (forall p q, sched = (p ++ q)%list ->
     exists sp, Limiter.run p s0 = Some sp /\
       Z.of_nat (Limiter.streaming (Limiter.tasks sp)) <= size /\
       Z.of_nat (Limiter.acquisitions p) <= size + Z.of_nat (Limiter.releases p)) /\
  (Z.of_nat (Limiter.streaming (Limiter.tasks s)) = size ->
     forall i, Limiter.step (Limiter.Enter i) s = None) /\
  (forall i,
     (Limiter.releases_of i sched <= Limiter.acquisitions_of i sched <= 1)%nat /\
     (forall r, Limiter.tasks s !! i = Some (Limiter.Exited r) ->
        Limiter.acquisitions_of i sched = 1%nat /\ Limiter.releases_of i sched = 1%nat) /\
     (Limiter.tasks s !! i = Some Limiter.Streaming ->
        forall r, exists s',
          Limiter.step (Limiter.Exit i r) s = Some s' /\
          Limiter._value (Limiter.sem s') = Limiter._value (Limiter.sem s) + 1 /\
          Limiter.tasks s' !! i = Some (Limiter.Exited r))).
Proof.
  intros Hs Hr.
  pose proof (LimiterFacts.invariant_run _ _ _ _ _ Hs Hr) as [Hv Hf Hb Hc].
  split; [lia|]. split; [|split].
  - intros p q ->. destruct (LimiterFacts.run_prefix _ _ _ _ Hr) as [sp Hp].
    exists sp. split; [done|].
    pose proof (LimiterFacts.invariant_run _ _ _ _ _ Hs Hp) as [Hv' Hf' Hb' _]. lia.
  - intros Hfull i. simpl. destruct (Limiter.tasks s !! i) as [[| |]|]; try done.
    unfold Limiter.acquire, Limiter.locked.
    destruct (Z.eqb_spec (Limiter._value (Limiter.sem s)) 0); [done|lia].
  - intros i. specialize (Hc i). unfold Limiter.counts_agree in Hc.
    split; [|split].
    + destruct (Limiter.tasks s !! i) as [[| |]|]; lia.
    + intros r Hi. by rewrite Hi in Hc.
    + intros Hi r. simpl. rewrite Hi. eexists. split; [done|]. simpl. split; [done|].
      apply list_lookup_insert_eq. by eapply lookup_lt_Some.
Qed.

(** C3 at the bound of [download_file], 10, with eleven calls: the first
    ten enter, the eleventh cannot; once call 3 has left with an
    exception, it can. *)
Lemma C3_limiter_bound_witness :
  let first_ten := List.map Limiter.Enter (seq 0 10) in
  let failed := Raise (ClientError ClientPayloadError) in
  let sched := (first_ten ++ [Limiter.Exit 3 failed; Limiter.Enter 10])%list in
  exists s0 s,
    Limiter.start Limiter.download_file_bound 11 = Ok s0 /\
    Limiter.run (first_ten ++ [Limiter.Enter 10]) s0 = None /\
    Limiter.run sched s0 = Some s /\
    Limiter.tasks s !! 3%nat = Some (Limiter.Exited failed) /\
    Limiter.tasks s !! 10%nat = Some Limiter.Streaming /\
    Z.of_nat (Limiter.streaming (Limiter.tasks s)) <= 10.
Proof.
  intros first_ten failed sched. do 2 eexists.
  split; [reflexivity|]. split; [reflexivity|]. split; [reflexivity|].
  split; [reflexivity|]. split; [reflexivity|].
  eapply (C3_limiter_bound Limiter.download_file_bound 11 sched); reflexivity.
Defined.

(** ** Progress updates *)

Lemma len_nonneg (s : string) : 0 <= str.len s.
Proof. unfold str.len. lia. Qed.

Lemma prefix_sums_lower (v : Z) (ls : list Z) :
  Forall (fun l => 0 <= l) ls -> Forall (fun x => v <= x) (prefix_sums v ls).
Proof.
  intros H. revert v. induction H as [|l r Hl _ IH]; intros v; simpl; [constructor|].
  constructor; [lia|]. eapply Forall_impl; [apply IH|]. simpl. intros. lia.
Qed.

(** Running totals of non-negative lengths never go down. *)
Lemma prefix_sums_sorted (v : Z) (ls : list Z) :
  Forall (fun l => 0 <= l) ls -> StronglySorted Z.le (v :: prefix_sums v ls).
Proof.
  intros H. revert v. induction H as [|l r Hl Hr IH]; intros v; simpl.
  - repeat constructor.
  - constructor; [apply IH|].
    apply List.Forall_cons; [lia|].
    assert (Hlow := prefix_sums_lower (v + l) r Hr).
    apply List.Forall_forall. intros x Hx.
    rewrite Forall_forall in Hlow. apply list_elem_of_In in Hx. specialize (Hlow x Hx).
    simpl in Hlow. lia.
Qed.

Lemma lens_nonneg (cs : list string) : Forall (fun l => 0 <= l) (map str.len cs).
Proof. induction cs; constructor; auto using len_nonneg. Qed.

Lemma update_Ok (b b' : ProgressBar) (v : Z) :
  progressbar.update b v = Ok b' -> b' = progressbar.set_currval b v.
Proof.
  unfold progressbar.update. destruct (maxval b); [|done].
  by destruct (_ && _); intros [= <-].
Qed.

Lemma last_cons_default {A} (x : A) (l : list A) (d d' : A) :
  List.last (x :: l) d = List.last (x :: l) d'.
Proof. revert x. induction l as [|y l IH]; intros x; [done|]. apply (IH y). Qed.

Lemma for_chunks_cons (c : string) (cs : list string) (err : option exn)
    (body : string -> M unit) (w : world) :
  for_chunks (c :: cs) err body w
  = match body c w with
    | (Ok _, w1) => for_chunks cs err body w1
    | (Raise e, w1) => (Raise e, w1)
    end.
Proof. reflexivity. Qed.

(** One round of the loop when the size is not known (or is zero): the
    bar is not touched and the chunk is handed to [write]. *)
Lemma stream_body_no_size write_error (fs : option Z) (r : bar_ref) (p : path)
    (c : string) (w : world) :
  truthy_int fs = false ->
  stream_body write_error fs r p c w = file_write write_error p c w.
Proof. intros Ht. unfold stream_body. rewrite Ht. reflexivity. Qed.

(** One round of the loop when the size is known: the bar is updated
    first, and the chunk is handed to [write] when the update returns. *)
Lemma stream_body_with_size write_error (fs : option Z) (r : bar_ref) (p : path)
    (c : string) (w : world) :
  truthy_int fs = true ->
  stream_body write_error fs r p c w
  = let v := currval (bars w !!! r) + str.len c in
    let w0 := add_bar_call w (CallUpdate r v) in
    match progressbar.update (bars w !!! r) v with
    | Ok b => file_write write_error p c (set_bars w0 (<[r := b]> (bars w)))
    | Raise e => (Raise e, w0)
    end.
Proof.
  intros Ht. unfold stream_body. rewrite Ht.
  unfold bind, bar_get, bar_update, bar_method. simpl.
  by destruct (progressbar.update _ _).
Qed.

(** The loop when the size is not known (or is zero): the chunks are
    written up to the first write that fails. *)
Lemma for_chunks_no_size write_error (fs : option Z) (r : bar_ref) (cs : list string)
    (err : option exn) (p : path) (w : world) :
  truthy_int fs = false ->
  for_chunks cs err (stream_body write_error fs r p) w
  = let ws := writes write_error p (default "" (files w !! p)) cs in
    (match loop_exn ws err with Some e => Raise e | None => Ok tt end,
     set_files w (fold_left (fun fs c => <[p := default "" (fs !! p) +:+ c]> fs)
                            (fst ws) (files w))).
Proof.
  intros Ht. revert w. induction cs as [|c cs IH]; intros w.
  - simpl. destruct w, err; reflexivity.
  - rewrite for_chunks_cons, stream_body_no_size by done.
    unfold file_write. cbv zeta. cbn [writes].
    destruct (write_error p (default "" (files w !! p)) c) as [errno|]; [by destruct w|].
    rewrite IH. cbv zeta. unfold set_files.
    cbn [files PROGRESS_MANAGER bars bar_calls log requests downloads fst snd fold_left].
    rewrite lookup_insert_eq. reflexivity.
Qed.

Lemma for_chunks_with_size write_error (fs : option Z) (cs : list string) (err : option exn)
    (r : bar_ref) (p : path) (w : world) :
  truthy_int fs = true ->
  (r < length (bars w))%nat ->
  let v0 := currval (bars w !!! r) in
  let res_w := for_chunks cs err (stream_body write_error fs r p) w in
  exists k, (k <= length cs)%nat /\
    bar_calls (snd res_w)
    = (bar_calls w ++ List.map (CallUpdate r) (prefix_sums v0 (List.map str.len (take k cs))))%list /\
    length (bars (snd res_w)) = length (bars w) /\
    In (currval (bars (snd res_w) !!! r))
       (v0 :: prefix_sums v0 (List.map str.len (take k cs))) /\
    (fst res_w = Ok tt ->
       k = length cs /\
       currval (bars (snd res_w) !!! r) = List.last (prefix_sums v0 (List.map str.len cs)) v0).
Proof.
  intros Ht. revert w. induction cs as [|c cs IH]; intros w Hr v0 res_w.
  - exists 0%nat. subst res_w. simpl. destruct err; simpl; rewrite app_nil_r; auto 10.
  - subst res_w. rewrite for_chunks_cons, stream_body_with_size by done. cbv zeta.
    destruct (progressbar.update (bars w !!! r) (currval (bars w !!! r) + str.len c))
      as [b'|e] eqn:Hu.
    + apply update_Ok in Hu. subst b'. unfold file_write. cbv zeta.
      match goal with |- context [write_error p ?cur c] =>
        destruct (write_error p cur c) as [errno|] end.
      * exists 1%nat. simpl. split; [lia|]. try rewrite take_0. simpl.
        split; [done|]. split; [by rewrite length_insert|].
        split; [right; left; by rewrite list_lookup_total_insert_eq|]. done.
      * set (w1 := set_files _ _).
        assert (Hr1 : (r < length (bars w1))%nat) by (subst w1; simpl; by rewrite length_insert).
        assert (Hv1 : currval (bars w1 !!! r) = v0 + str.len c).
        { subst w1. simpl. by rewrite list_lookup_total_insert_eq. }
        destruct (IH w1 Hr1) as (k & Hk & Hcalls & Hlen & Hin & Hok).
        rewrite Hv1 in Hcalls, Hin, Hok.
        exists (S k). simpl. split; [lia|]. split; [|split; [|split]].
        -- rewrite Hcalls. subst w1. simpl. by rewrite <- app_assoc.
        -- rewrite Hlen. subst w1. simpl. by rewrite length_insert.
        -- right. exact Hin.
        -- intros Hres. destruct (Hok Hres) as [-> Hlast]. split; [done|].
           rewrite Hlast. fold v0.
           destruct (prefix_sums (v0 + str.len c) (List.map str.len cs)); [done|].
           apply last_cons_default.
    + exists 1%nat. simpl. split; [lia|]. try rewrite take_0. simpl.
      split; [done|]. split; [done|]. split; [by left|]. done.
Qed.

(** C7. Over the chunk stream of one download task, the [update] calls on
    its progress bar carry the running totals of the chunk lengths: each
    call passes the previous value plus the length of the current chunk,
    which is not negative, so the values never go down; the value stored
    in the bar afterwards is the initial value or one of these totals,
    and when the loop ends normally with the size known it is the last
    total over all the chunks.  This holds on every disk, also when a
    write fails and ends the loop. *)
Theorem C7_progress_non_decreasing
    (write_error : path -> string -> string -> option string)
    (resp : response) (file_size : option Z)
    (chunks_bar : bar_ref) (output_file : path) (w : world) :
  (chunks_bar < length (bars w))%nat ->
  let v0 := currval (bars w !!! chunks_bar) in
  let res_w := stream_chunks write_error resp file_size chunks_bar output_file w in
  exists k, (k <= length (chunks resp))%nat /\
    let values := prefix_sums v0 (List.map str.len (take k (chunks resp))) in
    bar_calls (snd res_w) = (bar_calls w ++ List.map (CallUpdate chunks_bar) values)%list /\
    Forall (fun c => 0 <= str.len c) (chunks resp) /\
    StronglySorted Z.le (v0 :: values) /\
    In (currval (bars (snd res_w) !!! chunks_bar)) (v0 :: values) /\
    v0 <= currval (bars (snd res_w) !!! chunks_bar) /\
    (truthy_int file_size = false -> k = 0%nat) /\
    (truthy_int file_size = true -> fst res_w = Ok tt ->
       k = length (chunks resp) /\
       currval (bars (snd res_w) !!! chunks_bar)
       = List.last (prefix_sums v0 (List.map str.len (chunks resp))) v0).
Proof.
  intros Hr v0 res_w. unfold stream_chunks in res_w.
  assert (Hmono : forall k, StronglySorted Z.le
            (v0 :: prefix_sums v0 (List.map str.len (take k (chunks resp))))).
  { intros k. apply prefix_sums_sorted, lens_nonneg. }
  assert (Hnn : Forall (fun c => 0 <= str.len c) (chunks resp)).
  { apply Forall_forall. intros. apply len_nonneg. }
  destruct (truthy_int file_size) eqn:Ht.
  - destruct (for_chunks_with_size write_error file_size (chunks resp) (stream_error resp)
                chunks_bar output_file w Ht Hr) as (k & Hk & Hcalls & _ & Hin & Hok).
    fold v0 in Hcalls, Hin, Hok. fold res_w in Hcalls, Hin, Hok.
    exists k. split; [done|]. simpl. split; [done|]. split; [done|]. split; [done|].
    split; [done|]. split.
    + specialize (Hmono k). apply StronglySorted_inv in Hmono as [_ Hall].
      destruct Hin as [<-|Hin]; [lia|].
      rewrite List.Forall_forall in Hall. by apply Hall.
    + split; [done|]. intros _ Hres. by apply Hok.
  - exists 0%nat. subst res_w. rewrite for_chunks_no_size by done. simpl.
    rewrite app_nil_r. split; [lia|]. split; [done|]. split; [done|].
    split; [apply (Hmono 0%nat)|]. split; [by left|]. split; [subst v0; lia|]. done.
Qed.

(** C7 on a bar at 0 of maximum 7 and the chunks [abc] and [defg]: the
    two calls carry 3 and 7. *)
Lemma C7_progress_non_decreasing_witness :
  (0 < length (bars Examples.one_bar_world))%nat /\
  stream_chunks Examples.write_ok Examples.two_chunks (Some 7) 0%nat ("/tmp/", "f")
                Examples.one_bar_world
  = (Ok tt,
     mk_world Examples.manager [progressbar.mk [Text "f"] (Some 7) 7 DevNull]
              [CallUpdate 0 3; CallUpdate 0 7] [] {[ ("/tmp/", "f") := "abcdefg" ]} [] []) /\
  exists k, (k <= 2)%nat /\
    StronglySorted Z.le (0 :: prefix_sums 0 (List.map str.len (take k ["abc"; "defg"]))).
Proof.
  split; [simpl; lia|]. split; [reflexivity|].
  destruct (C7_progress_non_decreasing Examples.write_ok Examples.two_chunks (Some 7) 0%nat
              ("/tmp/", "f") Examples.one_bar_world) as (k & Hk & _ & _ & Hs & _).
  - simpl. lia.
  - exists k. split; [exact Hk|exact Hs].
Defined.

(** ** The download task *)

(** C1 at a transfer that breaks after the first chunk, in the world that
    [main] builds.  The exception is caught and logged by [download_file],
    and the file keeps the three bytes received, but the exception left
    [install_sub_bar] at its [yield]: [finish] was not called and slot 0
    still holds the bar, so the next allocation returns slot 1; after ten
    such downloads no slot is left.  The same download without the break
    frees slot 0. *)
Theorem C1_slot_kept_when_body_raises :
  let run := download_file (Examples.serve Examples.broken_transfer) Examples.open_ok
               Examples.write_ok Examples.file_url "/tmp/" in
  let after := run (initial_world Examples.manager) in
  main_manager = Ok Examples.manager /\
  fst after = Ok tt /\
  log (snd after)
  = [LogDownloading Examples.file_url "/tmp/";
     LogDownloadFailed Examples.file_url (ClientError ClientPayloadError)] /\
  files (snd after) !! ("/tmp/", "100MB.zip") = Some "abc" /\
  bar_calls (snd after) = [CallStart 0; CallUpdate 0 3] /\
  ProgressBarManager._lines (PROGRESS_MANAGER (snd after)) !! 0%nat = Some (Some 0%nat) /\
  ProgressBarManager._alloc_slot (PROGRESS_MANAGER (snd after)) = Ok (Some 1) /\
  ProgressBarManager._alloc_slot
    (PROGRESS_MANAGER (Nat.iter 10 (fun w => snd (run w)) (initial_world Examples.manager)))
  = Ok None /\
  ProgressBarManager._lines
    (PROGRESS_MANAGER
       (snd (download_file (Examples.serve Examples.whole_transfer) Examples.open_ok
               Examples.write_ok Examples.file_url "/tmp/"
               (initial_world Examples.manager)))) !! 0%nat
  = Some None.
Proof. repeat split; vm_compute; reflexivity. Qed.

(** C4 at a response whose [Content-Disposition] header is [attachment],
    without a [filename] parameter: the header is present, so the
    basename of the URL is not used, and the parsed parameters have no
    [filename]: the resolved name is [None].  [pathlib.Path] then raises
    [TypeError], which no [except] clause of [download_file] catches; no
    file is written. *)
Theorem C4_filename_absent_without_parameter :
  let resp := Examples.attachment_without_name in
  let w := initial_world Examples.manager in
  let after := download_file (Examples.serve resp) Examples.open_ok Examples.write_ok
                 Examples.file_url "/tmp/" w in
  headers_get (headers resp) "Content-Disposition" = Some "attachment" /\
  basename Examples.file_url = "100MB.zip" /\
  fst (resolve_filename Examples.file_url resp w) = Ok None /\
  fst after = Raise TypeError /\
  files (snd after) = ∅ /\
  log (snd after)
  = [LogDownloading Examples.file_url "/tmp/"; LogGotFilename None "100MB.zip"].
Proof. repeat split; vm_compute; reflexivity. Qed.

(** ** The orchestrator *)

(** C2 at a listing page whose links are [a.zip], [200MB.zip] and
    [index.html]: no link starts with [100MB], so none of the two [.zip]
    links does; the index [[0]] into the empty list raises [IndexError],
    which leaves [scrape]; nothing about the missing link is logged, and
    no download is started. *)
Theorem C2_no_match_raises_IndexError :
  let after := scrape (Examples.serve Examples.listing_page) Examples.open_ok
                 Examples.write_ok Examples.decode_ok
                 (Examples.links Examples.no_match_links)
                 (initial_world Examples.manager) in
  List.filter (fun href => str.startswith href "100MB") Examples.no_match_links = [] /\
  List.filter (fun href => str.startswith href "100MB")
              (zip_links Examples.no_match_links) = [] /\
  fst after = Raise IndexError /\
  log (snd after)
  = [LogFetching listing_url; LogGotResponse 200; LogExtracting; LogGotZipLinks 2] /\
  downloads (snd after) = [] /\
  requests (snd after) = [listing_url].
Proof. repeat split; vm_compute; reflexivity. Qed.

(** ** Stepping through the monad *)

Lemma bind_Ok {A B} (m : M A) (k : A -> M B) (w w' : world) (a : A) :
  m w = (Ok a, w') -> bind m k w = k a w'.
Proof. intros H. unfold bind. by rewrite H. Qed.

Lemma bind_Raise {A B} (m : M A) (k : A -> M B) (w w' : world) (e : exn) :
  m w = (Raise e, w') -> bind m k w = (Raise e, w').
Proof. intros H. unfold bind. by rewrite H. Qed.

Lemma alter_fresh {A} (f : A -> A) (bs : list A) (b : A) :
  alter f (length bs) (bs ++ [b])%list = (bs ++ [f b])%list.
Proof. induction bs as [|x bs IH]; [done|]. simpl. f_equal. exact IH. Qed.

Lemma insert_fresh {A} (bs : list A) (b b' : A) :
  <[length bs := b']> (bs ++ [b])%list = (bs ++ [b'])%list.
Proof. induction bs as [|x bs IH]; [done|]. simpl. f_equal. exact IH. Qed.

Lemma lookup_total_fresh (bs : list ProgressBar) (b : ProgressBar) :
  (bs ++ [b])%list !!! length bs = b.
Proof. by apply list_lookup_total_middle. Qed.

(** The newest bar of the store is the one just made. *)
Lemma bar_modify_fresh (f : ProgressBar -> ProgressBar) m bs b cs lg fs rq dl :
  bar_modify (length bs) f (mk_world m (bs ++ [b]) cs lg fs rq dl)
  = (Ok tt, mk_world m (bs ++ [f b]) cs lg fs rq dl).
Proof. unfold bar_modify, set_bars. simpl. by rewrite alter_fresh. Qed.

Lemma bar_method_fresh (c : bar_call) (f : ProgressBar -> result ProgressBar)
    m bs b cs lg fs rq dl :
  bar_method c (length bs) f (mk_world m (bs ++ [b]) cs lg fs rq dl)
  = match f b with
    | Ok b' => (Ok tt, mk_world m (bs ++ [b']) (cs ++ [c]) lg fs rq dl)
    | Raise e => (Raise e, mk_world m (bs ++ [b]) (cs ++ [c]) lg fs rq dl)
    end.
Proof.
  unfold bar_method, set_bars, add_bar_call. simpl. rewrite lookup_total_fresh.
  destruct (f b); [|done]. by rewrite insert_fresh.
Qed.

(** [install_main] on a bar just made with a maximum that is not negative:
    the bar is started and handed to the body. *)
Lemma install_main_enter_fresh ws (mx : Z) m bs cs lg fs rq dl :
  0 <= mx ->
  install_main_enter (length bs)
    (mk_world m (bs ++ [progressbar.new ws (Some mx)]) cs lg fs rq dl)
  = (Ok (length bs),
     mk_world m
       (bs ++ [progressbar.mk (TERM_bold :: ws) (Some mx) 0
                 (Writer (ProgressBarManager._main_coords m))])
       (cs ++ [CallStart (length bs)]) lg fs rq dl).
Proof.
  intros Hmx. unfold install_main_enter.
  erewrite bind_Ok by reflexivity.
  erewrite bind_Ok by apply bar_modify_fresh.
  erewrite bind_Ok by apply bar_modify_fresh.
  erewrite bind_Ok; [reflexivity|].
  unfold bar_start. rewrite bar_method_fresh.
  unfold progressbar.start, progressbar.update. simpl.
  destruct (Z.ltb_spec mx 0); [lia|].
  destruct (Z.leb_spec 0 mx); [|lia]. reflexivity.
Qed.

(** ** What a computation leaves alone *)

Section Frames.
Context {X : Type} (part : world -> X).

Lemma frames_ret {A} (a : A) : frames part (ret a).
Proof. by intros w. Qed.

Lemma frames_raise {A} (e : exn) : frames part (@raise A e).
Proof. by intros w. Qed.

Lemma frames_lift {A} (r : result A) : frames part (lift r).
Proof. by intros w. Qed.

Lemma frames_bind {A B} (m : M A) (k : A -> M B) :
  frames part m -> (forall a, frames part (k a)) -> frames part (bind m k).
Proof.
  intros Hm Hk w. unfold bind. specialize (Hm w).
  destruct (m w) as [[a|e] w1]; simpl in *; [|done].
  by rewrite Hk.
Qed.

Lemma frames_try_except {A} (m : M A) (h : exn -> option (M A)) :
  frames part m -> (forall e k, h e = Some k -> frames part k) ->
  frames part (try_except m h).
Proof.
  intros Hm Hh w. unfold try_except. specialize (Hm w).
  destruct (m w) as [[a|e] w1]; simpl in *; [done|].
  destruct (h e) as [k|] eqn:He; [|done]. by rewrite (Hh e k He).
Qed.

Lemma frames_with_contextmanager {L A} (enter : M L) (exit : L -> M unit)
    (body : L -> M A) :
  frames part enter -> (forall l, frames part (exit l)) ->
  (forall l, frames part (body l)) ->
  frames part (with_contextmanager enter exit body).
Proof.
  intros He Hx Hb w. unfold with_contextmanager. specialize (He w).
  destruct (enter w) as [[l|e] w1]; simpl in *; [|done].
  specialize (Hb l w1). destruct (body l w1) as [[a|e] w2]; simpl in *; [|congruence].
  specialize (Hx l w2). destruct (exit l w2) as [[u|e] w3]; simpl in *; congruence.
Qed.

Lemma frames_for_chunks (cs : list string) (err : option exn) (body : string -> M unit) :
  (forall c, frames part (body c)) -> frames part (for_chunks cs err body).
Proof.
  intros Hb. induction cs as [|c cs IH]; simpl.
  - destruct err; [apply frames_raise|apply frames_ret].
  - apply frames_bind; auto.
Qed.

End Frames.

(** Every step of the download task except the entry into [download_file]
    leaves the list of downloads alone. *)
Ltac frames_primitive :=
  let w := fresh "w" in
  intros w; cbv beta delta
    [LOGGER session_get ProgressBar_new bar_get bar_modify bar_method bar_start
     bar_update bar_finish alloc_slot set_line free_slot file_write];
  simpl; repeat (match goal with |- context [match ?x with _ => _ end] => destruct x end);
  reflexivity.

Lemma frames_downloads_LOGGER r : frames downloads (LOGGER r).
Proof. frames_primitive. Qed.
Lemma frames_downloads_session_get g u : frames downloads (session_get g u).
Proof. frames_primitive. Qed.
Lemma frames_downloads_new ws m : frames downloads (ProgressBar_new ws m).
Proof. frames_primitive. Qed.
Lemma frames_downloads_bar_get r : frames downloads (bar_get r).
Proof. frames_primitive. Qed.
Lemma frames_downloads_bar_modify r f : frames downloads (bar_modify r f).
Proof. frames_primitive. Qed.
Lemma frames_downloads_bar_method c r f : frames downloads (bar_method c r f).
Proof. frames_primitive. Qed.
Lemma frames_downloads_alloc_slot : frames downloads alloc_slot.
Proof. frames_primitive. Qed.
Lemma frames_downloads_set_line s v : frames downloads (set_line s v).
Proof. frames_primitive. Qed.
Lemma frames_downloads_free_slot s : frames downloads (free_slot s).
Proof. frames_primitive. Qed.
Lemma frames_downloads_file_write wr p c : frames downloads (file_write wr p c).
Proof. frames_primitive. Qed.
Lemma frames_downloads_manager :
  frames downloads (fun w : world => (Ok (PROGRESS_MANAGER w), w)).
Proof. by intros w. Qed.

Create HintDb frames.
#[local] Hint Resolve frames_ret frames_raise frames_lift frames_bind
  frames_try_except frames_with_contextmanager frames_for_chunks
  frames_downloads_LOGGER frames_downloads_session_get frames_downloads_new
  frames_downloads_bar_get frames_downloads_bar_modify frames_downloads_bar_method
  frames_downloads_alloc_slot frames_downloads_set_line frames_downloads_free_slot
  frames_downloads_file_write frames_downloads_manager : frames.

Lemma frames_downloads_install_sub_bar_enter r :
  frames downloads (install_sub_bar_enter r).
Proof.
  unfold install_sub_bar_enter, bar_start.
  apply frames_bind; [auto with frames|]. intros [s|]; auto 10 with frames.
Qed.

Lemma frames_downloads_install_sub_bar_exit l :
  frames downloads (install_sub_bar_exit l).
Proof.
  destruct l as [[s|] r]; unfold install_sub_bar_exit, bar_finish; auto 10 with frames.
Qed.

Lemma frames_downloads_stream_body wr fs r p c :
  frames downloads (stream_body wr fs r p c).
Proof.
  unfold stream_body, bar_update. destruct (truthy_int fs); auto 10 with frames.
Qed.

Lemma frames_downloads_body g o wr url folder :
  frames downloads (download_file_body g o wr url folder).
Proof.
  unfold download_file_body. apply frames_try_except.
  - apply frames_bind; [auto with frames|]. intros _.
    apply frames_bind; [auto with frames|]. intros resp.
    apply frames_bind.
    { unfold resolve_filename. destruct (truthy_str _); [|auto with frames].
      destruct (cgi.parse_header _). auto with frames. }
    intros filename. apply frames_bind.
    { unfold resolve_file_size. destruct (truthy_str _); auto with frames. }
    intros file_size. apply frames_bind; [auto with frames|]. intros p.
    unfold stream_to_file, with_open_wb. destruct (o p); [auto with frames|].
    apply frames_bind; [by intros w|]. intros _.
    apply frames_bind; [auto with frames|]. intros chunks_bar.
    unfold install_sub_bar. apply frames_with_contextmanager.
    + apply frames_downloads_install_sub_bar_enter.
    + apply frames_downloads_install_sub_bar_exit.
    + intros _. unfold stream_chunks. apply frames_for_chunks.
      intros c. apply frames_downloads_stream_body.
  - intros e k. unfold download_handlers.
    destruct e; intros [= <-]; auto with frames.
Qed.

(** [download_file] adds its call to the list of downloads, whatever the
    download then does. *)
Lemma downloads_download_file g o wr url folder w :
  downloads (snd (download_file g o wr url folder w)) = (downloads w ++ [(url, folder)])%list.
Proof.
  unfold download_file. unfold bind at 1. simpl.
  by rewrite frames_downloads_body.
Qed.

(** ** Basenames and concatenation *)

Section Rfind.
Variable c : ascii.

Lemma rfind_at_lower (s : string) (pos last : Z) :
  -1 <= last -> 0 <= pos -> -1 <= str.rfind_at c s pos last.
Proof.
  revert pos last. induction s as [|x r IH]; intros pos last Hl Hp; simpl; [done|].
  apply IH; [destruct (Ascii.eqb x c); lia|lia].
Qed.

Lemma rfind_lower (s : string) : -1 <= str.rfind s c.
Proof. apply rfind_at_lower; lia. Qed.

(** The search from a position, in terms of the search from the start. *)
Lemma rfind_at_shift (s : string) (pos last : Z) :
  str.rfind_at c s pos last
  = if str.rfind s c =? -1 then last else pos + str.rfind s c.
Proof.
  revert pos last. induction s as [|x r IH]; intros pos last; [done|].
  unfold str.rfind. cbn [str.rfind_at].
  rewrite (IH (pos + 1)), (IH (0 + 1)).
  assert (Hr := rfind_lower r).
  destruct (Z.eqb_spec (str.rfind r c) (-1)) as [Hn|Hn].
  - destruct (Ascii.eqb x c); [|done].
    destruct (Z.eqb_spec 0 (-1)); lia.
  - destruct (Z.eqb_spec (0 + 1 + str.rfind r c) (-1)); lia.
Qed.

Lemma rfind_cons (x : ascii) (r : string) :
  str.rfind (String x r) c
  = if str.rfind r c =? -1 then (if Ascii.eqb x c then 0 else -1)
    else 1 + str.rfind r c.
Proof.
  unfold str.rfind at 1. cbn [str.rfind_at]. rewrite rfind_at_shift.
  by destruct (str.rfind r c =? -1).
Qed.

(** The character does not occur in a concatenation exactly when it
    occurs in neither part. *)
Lemma rfind_app_none (s t : string) :
  str.rfind t c = -1 -> (str.rfind (s +:+ t) c =? -1) = (str.rfind s c =? -1).
Proof.
  intros Ht. induction s as [|x r IH].
  - change ("" +:+ t) with t. rewrite Ht. reflexivity.
  - change (String x r +:+ t) with (String x (r +:+ t)).
    rewrite !rfind_cons, IH.
    assert (H1 := rfind_lower r). assert (H2 := rfind_lower (r +:+ t)).
    destruct (Z.eqb_spec (str.rfind r c) (-1)); [done|].
    destruct (Z.eqb_spec (1 + str.rfind (r +:+ t) c) (-1)); [lia|].
    destruct (Z.eqb_spec (1 + str.rfind r c) (-1)); [lia|done].
Qed.

End Rfind.

(** [basename] unfolded by one character. *)
Lemma basename_cons (x : ascii) (r : string) :
  basename (String x r)
  = if str.rfind r "/" =? -1
    then (if Ascii.eqb x "/" then r else String x r)
    else basename r.
Proof.
  unfold basename, str.slice_from. rewrite rfind_cons.
  assert (Hr := rfind_lower "/" r).
  destruct (Z.eqb_spec (str.rfind r "/") (-1)) as [Hn|Hn].
  - by destruct (Ascii.eqb x "/").
  - cbn [str.drop].
    replace (Z.to_nat (1 + str.rfind r "/" + 1)) with (S (Z.to_nat (str.rfind r "/" + 1))) by lia.
    reflexivity.
Qed.

Lemma basename_no_slash (t : string) : str.rfind t "/" = -1 -> basename t = t.
Proof. intros Ht. unfold basename. by rewrite Ht. Qed.

(** Concatenation puts nothing between its parts: the basename of [u + t],
    for a [t] without a slash, is the basename of [u] followed by [t]. *)
Lemma basename_app (u t : string) :
  str.rfind t "/" = -1 -> basename (u +:+ t) = basename u +:+ t.
Proof.
  intros Ht. induction u as [|x r IH].
  - change ("" +:+ t) with t. by rewrite (basename_no_slash t).
  - change (String x r +:+ t) with (String x (r +:+ t)).
    rewrite !basename_cons, rfind_app_none by done.
    destruct (str.rfind r "/" =? -1); [|done].
    by destruct (Ascii.eqb x "/").
Qed.

Lemma endswith_slash_cons (x : ascii) (r : string) :
  str.endswith (String x r) "/"
  = match r with
    | EmptyString => Ascii.eqb x "/"
    | String _ _ => str.endswith r "/"
    end.
Proof.
  unfold str.endswith. destruct r as [|y r']; simpl.
  - by destruct (Ascii.eqb x "/").
  - by rewrite Nat.sub_0_r.
Qed.

(** The basename is empty exactly for the empty string and for a string
    that ends with a slash. *)
Lemma basename_empty (u : string) :
  basename u = "" <-> u = "" \/ str.endswith u "/" = true.
Proof.
  induction u as [|x r IH].
  - split; [by left|done].
  - rewrite basename_cons, endswith_slash_cons.
    destruct r as [|y r'].
    + simpl. destruct (Ascii.eqb x "/"); split; auto; intros [H|H]; done.
    + destruct (Z.eqb_spec (str.rfind (String y r') "/") (-1)) as [Hn|Hn].
      * assert (Hb := basename_no_slash _ Hn).
        assert (Hf : str.endswith (String y r') "/" = false).
        { destruct (str.endswith (String y r') "/") eqn:He; [|done].
          assert (basename (String y r') = "") by (apply IH; by right). congruence. }
        rewrite Hf. destruct (Ascii.eqb x "/"); split; try done; intros [H|H]; done.
      * rewrite IH. split; intros [H|H]; try done; by right.
Qed.

Lemma append_length (u t : string) :
  String.length (u +:+ t) = (String.length u + String.length t)%nat.
Proof. induction u as [|x r IH]; simpl; [done|]. by rewrite IH. Qed.

Lemma take_append (u t : string) : str.take (String.length u) (u +:+ t) = u.
Proof. induction u as [|x r IH]; simpl; [done|]. by rewrite IH. Qed.

Lemma drop_append (u t : string) : str.drop (String.length u) (u +:+ t) = t.
Proof. induction u as [|x r IH]; simpl; [done|]. by rewrite IH. Qed.

Lemma append_to_empty (s t : string) : s +:+ t = t -> s = "".
Proof.
  intros H. assert (Hl := append_length s t). rewrite H in Hl.
  destruct s; [done|]. simpl in Hl. lia.
Qed.

(** ** The orchestrator, step by step *)

Section ScrapeFacts.
Variable http_get : string -> result response.
Variable open_wb : path -> option exn.
Variable write_error : path -> string -> string -> option string.
Variable decode : list (string * string) -> string -> option string.
Variable findAll_a_href : string -> list string.

(** A listing page that arrives whole with a status below 400 and is
    valid in its charset. *)
Lemma fetch_Ok (resp : response) (text : string) (w : world) :
  http_get listing_url = Ok resp ->
  status resp < 400 ->
  stream_error resp = None ->
  decode (headers resp) (whole_body resp) = Some text ->
  fetch http_get decode listing_url w
  = (Ok text,
     add_log (add_request (add_log w (LogFetching listing_url)) listing_url)
             (LogGotResponse (status resp))).
Proof.
  intros Hg Hs He Hd.
  unfold fetch, bind, LOGGER, session_get, lift, raise_for_status, resp_text.
  rewrite Hg, He, Hd. simpl. destruct (Z.leb_spec 400 (status resp)); [lia|done].
Qed.

(** The three ways the fetch of the listing page raises before the page
    is decoded. *)
Lemma fetch_Raise (e : exn) (w : world) :
  (http_get listing_url = Raise e \/
   (exists resp, http_get listing_url = Ok resp /\ 400 <= status resp /\
                 e = ClientError (ClientResponseError (status resp))) \/
   (exists resp, http_get listing_url = Ok resp /\ status resp < 400 /\
                 stream_error resp = Some e)) ->
  exists seen,
    fetch http_get decode listing_url w
    = (Raise e,
       mk_world (PROGRESS_MANAGER w) (bars w) (bar_calls w)
                (log w ++ LogFetching listing_url :: seen) (files w)
                (requests w ++ [listing_url]) (downloads w)).
Proof.
  unfold fetch, bind, LOGGER, session_get, lift, raise_for_status, resp_text.
  intros [Hg|[(resp & Hg & Hs & ->)|(resp & Hg & Hs & He)]]; rewrite Hg; simpl.
  - by exists [].
  - exists [LogGotResponse (status resp)].
    destruct (Z.leb_spec 400 (status resp)); [|lia].
    unfold add_log, add_request. simpl. by rewrite <- app_assoc.
  - exists [LogGotResponse (status resp)].
    destruct (Z.leb_spec 400 (status resp)); [lia|]. rewrite He.
    unfold add_log, add_request. simpl. by rewrite <- app_assoc.
Qed.

(** The selected link is a [.zip] link that starts with [100MB]. *)
Lemma select_target_Ok (hrefs : list string) (t : string) :
  select_target (zip_links hrefs) = Ok t ->
  In t hrefs /\ str.endswith t ".zip" = true /\ str.startswith t "100MB" = true.
Proof.
  unfold select_target, py.list_getitem, zip_links.
  set (l := List.filter _ (List.filter _ hrefs)). intros H.
  assert (Hin : In t l).
  { destruct l as [|x l']; simpl in H; [done|]. inversion H. by left. }
  subst l. apply List.filter_In in Hin as [Hin Hs].
  apply List.filter_In in Hin as [Hin Hz]. done.
Qed.

(** No link that starts with [100MB]: the index raises. *)
Lemma select_target_Raise (all_urls : list string) :
  List.filter (fun href => str.startswith href "100MB") all_urls = [] ->
  select_target all_urls = Raise IndexError.
Proof. unfold select_target. by intros ->. Qed.

(** When the page is fetched and decoded and a link is selected, the
    download task is called once, with the concatenation of the two
    strings. *)
Lemma scrape_downloads (resp : response) (text t : string) (w : world) :
  http_get listing_url = Ok resp ->
  status resp < 400 ->
  stream_error resp = None ->
  decode (headers resp) (whole_body resp) = Some text ->
  select_target (zip_links (findAll_a_href text)) = Ok t ->
  downloads (snd (scrape http_get open_wb write_error decode findAll_a_href w))
  = (downloads w ++ [(listing_url +:+ t, "/tmp/")])%list.
Proof.
  intros Hg Hs He Hd Ht. unfold scrape. cbv zeta.
  erewrite bind_Ok; cycle 1.
  { unfold try_except. erewrite bind_Ok by (by apply fetch_Ok). reflexivity. }
  cbv beta iota.
  erewrite bind_Ok by reflexivity.
  erewrite bind_Ok by reflexivity.
  erewrite bind_Ok by (unfold lift; rewrite Ht; reflexivity).
  erewrite bind_Ok by reflexivity.
  destruct w as [m bs cs lg fs rq dl].
  unfold install_main, with_contextmanager, add_log, add_request, set_bars. simpl.
  rewrite install_main_enter_fresh by lia.
  match goal with |- context [download_file ?g ?o ?wr ?u ?f ?w0] =>
    pose proof (downloads_download_file g o wr u f w0) as Hdl;
    destruct (download_file g o wr u f w0) as [[u0|e0] w3] end; simpl in Hdl.
  - pose proof (frames_downloads_bar_method (CallFinish (length bs)) (length bs)
                  progressbar.finish w3) as Hx.
    unfold install_main_exit, bar_finish.
    destruct (bar_method _ _ _ w3) as [[u1|e1] w4]; simpl in *; congruence.
  - done.
Qed.

End ScrapeFacts.

Lemma append_assoc (a b c : string) : (a +:+ b) +:+ c = a +:+ (b +:+ c).
Proof.
  induction a as [|x a IH]; [done|].
  change (String x ((a +:+ b) +:+ c) = String x (a +:+ (b +:+ c))). by rewrite IH.
Qed.

Lemma append_empty_r (a : string) : a +:+ "" = a.
Proof.
  induction a as [|x a IH]; [done|].
  change (String x (a +:+ "") = String x a). by rewrite IH.
Qed.

(** A URL is its directory followed by its last segment. *)
Lemma take_drop_string (n : nat) (s : string) : str.take n s +:+ str.drop n s = s.
Proof.
  revert s. induction n as [|n IH]; intros [|x r]; try done.
  cbn [str.take str.drop]. change (String x (str.take n r +:+ str.drop n r) = String x r).
  by rewrite IH.
Qed.

Lemma directory_basename (u : string) : directory u +:+ basename u = u.
Proof. apply take_drop_string. Qed.

Lemma append_inv_head (s t1 t2 : string) : s +:+ t1 = s +:+ t2 -> t1 = t2.
Proof. induction s as [|x r IH]; simpl; [done|]. intros [= H]. by apply IH. Qed.

(** The concatenation puts the link into the directory of the page
    exactly when the URL of the page ends with a slash. *)
Lemma append_in_directory (u t : string) :
  u <> "" -> (u +:+ t = directory u +:+ t <-> str.endswith u "/" = true).
Proof.
  intros Hu. split.
  - intros H. rewrite <- (directory_basename u) in H at 1.
    rewrite append_assoc in H. apply append_inv_head in H.
    apply append_to_empty in H. apply basename_empty in H as [H|H]; done.
  - intros H. assert (Hb : basename u = "") by (apply basename_empty; by right).
    pose proof (directory_basename u) as Hd. rewrite Hb in Hd.
    rewrite <- Hd at 1. by rewrite append_empty_r.
Qed.

(** A link that starts with [100MB] is relative: a scheme starts with a
    letter. *)
Lemma starts_100MB_relative (t : string) :
  str.startswith t "100MB" = true -> is_relative t = true.
Proof.
  unfold str.startswith. destruct t as [|c r]; [done|].
  change (String.prefix "100MB" (String c r))
    with (if ascii_dec "1" c then String.prefix "00MB" r else false).
  destruct (ascii_dec "1" c) as [<-|]; [|done]. intros _. reflexivity.
Qed.



(** C8, as the code has it.  When the request for the listing page raises
    an [aiohttp] client error or a timeout, or the response has a status
    of 400 or more, or the body breaks off with such an error, [scrape]
    logs the failure and returns: no exception leaves it, no download is
    started, and nothing but the log and the list of requests changes. *)
Theorem C8_fetch_failure_amended
    (http_get : string -> result response) (open_wb : path -> option exn)
    (write_error : path -> string -> string -> option string)
    (decode : list (string * string) -> string -> option string)
    (findAll_a_href : string -> list string) (e : exn) (w : world) :
  is_client_or_timeout e = true ->
  (http_get listing_url = Raise e \/
   (exists resp, http_get listing_url = Ok resp /\ 400 <= status resp /\
                 e = ClientError (ClientResponseError (status resp))) \/
   (exists resp, http_get listing_url = Ok resp /\ status resp < 400 /\
                 stream_error resp = Some e)) ->
  exists seen,
    scrape http_get open_wb write_error decode findAll_a_href w
    = (Ok tt,
       mk_world (PROGRESS_MANAGER w) (bars w) (bar_calls w)
                (log w ++ LogFetching listing_url :: seen ++ [LogFetchFailed e])
                (files w) (requests w ++ [listing_url]) (downloads w)).
Proof.
  intros Hc Hf. destruct (fetch_Raise http_get decode e w Hf) as [seen Hfetch].
  exists seen. unfold scrape. cbv zeta.
  replace (log w ++ LogFetching listing_url :: seen ++ [LogFetchFailed e])%list
    with ((log w ++ LogFetching listing_url :: seen) ++ [LogFetchFailed e])%list
    by (by rewrite <- app_assoc).
  set (w1 := mk_world _ _ _ _ _ _ _) in Hfetch.
  assert (Htry : try_except (t <- fetch http_get decode listing_url ;; ret (Some t))
                   scrape_handlers w
                 = (Ok None, add_log w1 (LogFetchFailed e))).
  { unfold try_except. erewrite bind_Raise by exact Hfetch. by destruct e. }
  erewrite bind_Ok by exact Htry. reflexivity.
Qed.

(** The amended C8 at a listing page answered with the status 404. *)
Lemma C8_fetch_failure_amended_witness :
  scrape (Examples.serve (mk_response 404 [] ["not found"] None)) Examples.open_ok
         Examples.write_ok Examples.decode_ok
         (Examples.links Examples.fixture_links) (initial_world Examples.manager)
  = (Ok tt,
     mk_world Examples.manager [] []
              [LogFetching listing_url; LogGotResponse 404;
               LogFetchFailed (ClientError (ClientResponseError 404))]
              ∅ [listing_url] []).
Proof.
  destruct (C8_fetch_failure_amended
              (Examples.serve (mk_response 404 [] ["not found"] None)) Examples.open_ok
              Examples.write_ok Examples.decode_ok
              (Examples.links Examples.fixture_links)
              (ClientError (ClientResponseError 404)) (initial_world Examples.manager))
    as [seen H]; [reflexivity| |].
  - right. left. eexists. split; [reflexivity|]. split; [simpl; lia|reflexivity].
  - reflexivity.
Defined.

(** C8 as stated fails at the status 300, which is not in the range 200 to
    299: [raise_for_status] raises from 400 on only, so the page is parsed,
    nothing is logged as a failure, and the download of the selected link
    is started. *)
Lemma C8_fetch_failure_counterexample :
  let after := scrape (Examples.serve Examples.multiple_choices_page) Examples.open_ok
                 Examples.write_ok Examples.decode_ok
                 (Examples.links Examples.fixture_links)
                 (initial_world Examples.manager) in
  status Examples.multiple_choices_page = 300 /\
  is_2xx (status Examples.multiple_choices_page) = false /\
  fst after = Ok tt /\
  downloads (snd after) = [("http://speedtest.tele2.net/100MB-1.zip", "/tmp/")] /\
  log (snd after)
  = [LogFetching listing_url; LogGotResponse 300; LogExtracting; LogGotZipLinks 3;
     LogDownloading "http://speedtest.tele2.net/100MB-1.zip" "/tmp/"].
Proof. repeat split; vm_compute; reflexivity. Qed.

(** ** The loops of [cgi._parseparam] run to their end

    The fuel given to the two loops is never used up: more fuel gives the
    same result. *)

Lemma len_cons (x : ascii) (r : string) : str.len (String x r) = 1 + str.len r.
Proof. unfold str.len. simpl. lia. Qed.

(** [find] returns [-1] or an index at or after [start]. *)
Lemma find_at_range (c : ascii) (s : string) (pos start : Z) :
  str.find_at c s pos start = -1 \/
  (start <= str.find_at c s pos start /\
   pos <= str.find_at c s pos start < pos + str.len s).
Proof.
  revert pos. induction s as [|x r IH]; intros pos; [by left|].
  cbn [str.find_at]. rewrite len_cons. assert (Hl := len_nonneg r).
  destruct ((start <=? pos) && Ascii.eqb x c) eqn:Hc.
  - right. apply andb_true_iff in Hc as [Hs _]. apply Z.leb_le in Hs. lia.
  - destruct (IH (pos + 1)) as [->|H]; [by left|right; lia].
Qed.

Lemma find_end_stable (s : string) (n : nat) :
  forall (e : Z) (f1 f2 : nat),
    e <= str.len s ->
    (0 < e -> str.len s + 2 - e <= Z.of_nat n) ->
    (n <= f1)%nat -> (n <= f2)%nat ->
    cgi.find_end f1 s e = cgi.find_end f2 s e.
Proof.
  induction n as [|n IH]; intros e f1 f2 He Hn H1 H2.
  - assert (Hz : (0 <? e) = false) by (apply Z.ltb_ge; lia).
    destruct f1, f2; simpl; by rewrite ?Hz.
  - destruct (0 <? e) eqn:Hpos; [|destruct f1, f2; simpl; by rewrite ?Hpos].
    destruct (cgi.quotes_odd s e) eqn:Hq; [|destruct f1, f2; simpl; by rewrite ?Hpos, ?Hq].
    destruct f1 as [|f1]; [lia|]. destruct f2 as [|f2]; [lia|].
    simpl. rewrite Hpos, Hq. simpl. apply Z.ltb_lt in Hpos.
    unfold str.find.
    destruct (find_at_range ";" s 0 (e + 1)) as [->|Hr].
    + apply IH; lia.
    + apply IH; lia.
Qed.

Lemma take_one_semicolon (s : string) :
  String.eqb (str.slice_to s 1) ";" = true -> exists r, s = String ";" r.
Proof.
  destruct s as [|x r]; [done|]. unfold str.slice_to. simpl.
  destruct (Ascii.eqb_spec x ";") as [->|]; [by eexists|done].
Qed.

Lemma drop_length (n : nat) (s : string) :
  (String.length (str.drop n s) <= String.length s)%nat.
Proof.
  revert s. induction n as [|n IH]; intros s; [done|].
  destruct s as [|x r]; simpl; [done|]. specialize (IH r). lia.
Qed.

Lemma _parseparam_stable (f1 : nat) :
  forall (s : string) (f2 : nat),
    (String.length s < f1)%nat -> (String.length s < f2)%nat ->
    cgi._parseparam f1 s = cgi._parseparam f2 s.
Proof.
  induction f1 as [|f1 IH]; intros s f2 H1 H2; [lia|].
  destruct f2 as [|f2]; [lia|]. cbn [cgi._parseparam].
  destruct (String.eqb (str.slice_to s 1) ";") eqn:Hs; [|done].
  destruct (take_one_semicolon s Hs) as [r ->]. f_equal.
  change (str.slice_from (String ";" r) 1) with r.
  unfold str.slice_from.
  match goal with |- context [str.drop ?n r] => pose proof (drop_length n r) as Hd end.
  simpl in H1, H2. apply IH; lia.
Qed.

(** [parse_header] has fuel to spare, and its first part, the key, is
    always there. *)
Lemma parse_header_total (line : string) :
  (forall k, cgi._parseparam (S (S (String.length line)) + k) (";" +:+ line)
             = cgi._parseparam (S (S (String.length line))) (";" +:+ line)) /\
  (forall s k, cgi.find_end (S (String.length s) + k) s (str.find s ";" 0)
               = cgi.find_end (S (String.length s)) s (str.find s ";" 0)) /\
  exists key ps, cgi._parseparam (S (S (String.length line))) (";" +:+ line) = key :: ps.
Proof.
  split; [|split].
  - intros k. apply _parseparam_stable;
      change (";" +:+ line) with (String ";" line); simpl; lia.
  - intros s k. unfold str.find.
    destruct (find_at_range ";" s 0 0) as [->|Hr].
    + apply (find_end_stable s 0); [pose proof (len_nonneg s)|..]; lia.
    + apply (find_end_stable s (S (String.length s))); unfold str.len in *; lia.
  - cbn [cgi._parseparam]. change (str.slice_to (";" +:+ line) 1) with ";".
    simpl. by do 2 eexists.
Qed.

(** * Further properties *)

(** ** The slot pool, continued *)

Section PoolMore.
Context {Bar : Type}.
Import ProgressBarManager.

Lemma None_in_iff (l : list (option Bar)) :
  None_in l = true <-> exists j, l !! j = Some None.
Proof.
  split.
  - intros H. destruct (None_in_true l H) as [i Hi].
    destruct (index_None_lowest l i Hi) as (_ & Hf & _). by eexists.
  - intros [j Hj]. destruct (None_in l) eqn:Hn; [done|].
    by destruct (None_in_false l Hn j None Hj).
Qed.

Lemma alloc_slot_Some (self : t Bar) (s : Z) :
  _alloc_slot self = Ok (Some s) ->
  0 <= s < Z.of_nat (length (_lines self)) /\
  _lines self !! Z.to_nat s = Some None /\
  forall j, (j < Z.to_nat s)%nat -> exists b, _lines self !! j = Some (Some b).
Proof.
  unfold _alloc_slot. destruct (None_in (_lines self)); [|done].
  destruct (index_None (_lines self)) as [i|e] eqn:Hi; [|done].
  intros [= <-]. destruct (index_None_lowest _ _ Hi) as (H0 & Hf & Hl).
  split; [|done]. apply lookup_lt_Some in Hf. lia.
Qed.

Lemma set_line_in_range (self : t Bar) (s : Z) (v : option Bar) :
  0 <= s < Z.of_nat (length (_lines self)) ->
  set_line self s v = Ok (set_lines self (<[Z.to_nat s := v]> (_lines self))).
Proof.
  intros Hs. unfold set_line. rewrite list_setitem_in_range by lia.
  by rewrite Z.mod_small by lia.
Qed.

End PoolMore.

(** X1. A manager cannot be built without [main_coords]: the default is
    stored, but the next line indexes the argument itself and raises
    [TypeError].  With [main_coords], the sub bars are anchored four
    columns to the right and one line below; the pool has ten slots when
    [lines] is missing or zero, [lines] slots when it is positive and no
    slot when it is negative; every slot is empty, so the first
    allocation returns slot 0, or [None] when the pool has no slot. *)
Theorem X1_init_pool (Bar : Type) (lines : option Z) :
  @ProgressBarManager.__init__ Bar None lines = Raise TypeError /\
  forall c : Z * Z,
    exists m, @ProgressBarManager.__init__ Bar (Some c) lines = Ok m /\
      ProgressBarManager._main_coords m = c /\
      ProgressBarManager._sub_coords m = (fst c + 4, snd c + 1) /\
      Z.of_nat (length (ProgressBarManager._lines m))
      = match lines with
        | None => 10
        | Some k => if k =? 0 then 10 else Z.max 0 k
        end /\
      Forall (fun x => x = None) (ProgressBarManager._lines m) /\
      ProgressBarManager._alloc_slot m
      = Ok (if (length (ProgressBarManager._lines m) =? 0)%nat then None else Some 0).
Proof.
  split; [done|]. intros c. eexists. split; [reflexivity|]. simpl.
  split; [done|]. split; [done|].
  set (n := match lines with
            | Some k => if k =? 0 then ProgressBarManager.DEFAULT_LINE_MAX else k
            | None => ProgressBarManager.DEFAULT_LINE_MAX
            end).
  unfold py.list_repeat. rewrite length_replicate. split; [|split].
  - subst n. unfold ProgressBarManager.DEFAULT_LINE_MAX.
    destruct lines as [k|]; [|done]. destruct (Z.eqb_spec k 0); [done|lia].
  - apply Forall_forall. intros x Hx. by apply elem_of_replicate in Hx as [-> _].
  - unfold ProgressBarManager._alloc_slot. simpl. by destruct (Z.to_nat n).
Qed.

(** X2. Claiming the slot that [_alloc_slot] returned and freeing it
    again gives the pool back as it was: the claim succeeds, stores the
    bar in that slot, and [_free_slot] on the result returns the original
    manager. *)
Theorem X2_claim_free_round_trip (Bar : Type) (self : ProgressBarManager.t Bar)
    (s : Z) (b : Bar) :
  ProgressBarManager._alloc_slot self = Ok (Some s) ->
  exists m1,
    ProgressBarManager.set_line self s (Some b) = Ok m1 /\
    ProgressBarManager._lines m1 !! Z.to_nat s = Some (Some b) /\
    length (ProgressBarManager._lines m1) = length (ProgressBarManager._lines self) /\
    ProgressBarManager._free_slot m1 s = Ok self.
Proof.
  intros Ha. destruct (alloc_slot_Some self s Ha) as (Hs & Hfree & _).
  eexists. split; [by apply set_line_in_range|]. simpl.
  split; [apply list_lookup_insert_eq; lia|]. split; [apply length_insert|].
  unfold ProgressBarManager._free_slot.
  rewrite set_line_in_range by (simpl; rewrite length_insert; lia).
  unfold ProgressBarManager.set_lines. cbn [ProgressBarManager._lines
    ProgressBarManager._main_coords ProgressBarManager._sub_coords].
  rewrite list_insert_insert_eq, list_insert_id by done. by destruct self.
Qed.

(** X2 on the pool that [main] builds. *)
Lemma X2_claim_free_round_trip_witness :
  exists m1,
    ProgressBarManager.set_line Examples.manager 0 (Some 7%nat) = Ok m1 /\
    ProgressBarManager._lines m1 !! 0%nat = Some (Some 7%nat) /\
    ProgressBarManager._free_slot m1 0 = Ok Examples.manager.
Proof.
  destruct (X2_claim_free_round_trip bar_ref Examples.manager 0 7%nat eq_refl)
    as (m1 & H1 & H2 & _ & H3).
  exists m1. split; [exact H1|]. split; [exact H2|exact H3].
Defined.

(** X3. A claimed slot is not handed out again: after the slot returned
    by [_alloc_slot] has been claimed, the other slots are as before, and
    the next allocation returns [None] or a higher slot that was already
    empty. *)
Theorem X3_no_slot_twice (Bar : Type) (self m1 : ProgressBarManager.t Bar)
    (s : Z) (b : Bar) :
  ProgressBarManager._alloc_slot self = Ok (Some s) ->
  ProgressBarManager.set_line self s (Some b) = Ok m1 ->
  (forall j, j <> Z.to_nat s ->
     ProgressBarManager._lines m1 !! j = ProgressBarManager._lines self !! j) /\
  exists o, ProgressBarManager._alloc_slot m1 = Ok o /\
    match o with
    | None => True
    | Some s' => s < s' /\ ProgressBarManager._lines self !! Z.to_nat s' = Some None
    end.
Proof.
  intros Ha Hset. destruct (alloc_slot_Some self s Ha) as (Hs & Hfree & Hlow).
  rewrite set_line_in_range in Hset by done. inversion Hset; subst m1; clear Hset.
  simpl. split; [intros j Hj; by apply list_lookup_insert_ne|].
  unfold ProgressBarManager._alloc_slot.
  cbn [ProgressBarManager._lines ProgressBarManager.set_lines].
  destruct (ProgressBarManager.None_in _) eqn:Hin; [|by exists None].
  destruct (None_in_true _ Hin) as [s' Hi]. rewrite Hi.
  exists (Some s'). split; [done|].
  destruct (index_None_lowest _ _ Hi) as (H0 & Hf' & Hl').
  assert (Hne : Z.to_nat s' <> Z.to_nat s).
  { intros Heq. rewrite Heq in Hf'. rewrite list_lookup_insert_eq in Hf' by lia. done. }
  rewrite list_lookup_insert_ne in Hf' by done. split; [|done].
  destruct (Z.lt_ge_cases s s'); [done|]. exfalso.
  destruct (Hlow (Z.to_nat s')) as [b' Hb']; [lia|]. congruence.
Qed.

(** X3 on the pool that [main] builds, with slot 0 claimed: the next
    allocation returns slot 1. *)
Lemma X3_no_slot_twice_witness :
  exists m1 o,
    ProgressBarManager.set_line Examples.manager 0 (Some 7%nat) = Ok m1 /\
    ProgressBarManager._alloc_slot m1 = Ok o /\
    match o with
    | None => True
    | Some s' => 0 < s' /\ ProgressBarManager._lines Examples.manager !! Z.to_nat s' = Some None
    end.
Proof.
  eexists.
  destruct (X3_no_slot_twice bar_ref Examples.manager _ 0 7%nat eq_refl eq_refl)
    as (_ & o & Ho & Hspec).
  exists o. split; [reflexivity|]. split; [exact Ho|exact Hspec].
Defined.

(** X4. In a manager built by [__init__], slot [i] is drawn four columns
    right of the main bar and [1 + i] lines below it: two slots never
    share a line, and no slot of the pool shares the line of the main
    bar. *)
Theorem X4_sub_lines_apart (Bar : Type) (c : Z * Z) (lines : option Z)
    (m : ProgressBarManager.t Bar) (i j : Z) :
  ProgressBarManager.__init__ (Some c) lines = Ok m ->
  ProgressBarManager._get_sub_line m i = (fst c + 4, snd c + 1 + i) /\
  (ProgressBarManager._get_sub_line m i = ProgressBarManager._get_sub_line m j -> i = j) /\
  (0 <= i ->
   snd (ProgressBarManager._main_coords m) < snd (ProgressBarManager._get_sub_line m i)).
Proof.
  intros [= <-]. unfold ProgressBarManager._get_sub_line. simpl.
  unfold ProgressBarManager.SUB_INDENT, ProgressBarManager.SUB_LINE_OFFSET.
  split; [done|]. split; [|lia]. intros [= H]. lia.
Qed.

(** X4 in the manager of [main]: slot 0 is on line 8, slot 9 on line 17. *)
Lemma X4_sub_lines_apart_witness :
  ProgressBarManager._get_sub_line Examples.manager 0 = (4, 8) /\
  ProgressBarManager._get_sub_line Examples.manager 9 = (4, 17) /\
  snd (ProgressBarManager._main_coords Examples.manager)
  < snd (ProgressBarManager._get_sub_line Examples.manager 9).
Proof.
  destruct (X4_sub_lines_apart bar_ref (0, 7) None Examples.manager 0 9 eq_refl)
    as (H0 & _ & _).
  destruct (X4_sub_lines_apart bar_ref (0, 7) None Examples.manager 9 0 eq_refl)
    as (H9 & _ & Hbelow).
  split; [exact H0|]. split; [exact H9|]. apply Hbelow. lia.
Defined.

(** ** The concurrency limiter, continued *)

Module LimiterMore.
Import Limiter.

Lemma run_cons (a : action) (sched : list action) (s : state) :
  run (a :: sched) s = match step a s with Some s' => run sched s' | None => None end.
Proof.
  unfold run. simpl. destruct (step a s); [done|]. apply LimiterFacts.run_stuck.
Qed.

Lemma run_app (p q : list action) (s : state) :
  run (p ++ q) s = match run p s with Some s' => run q s' | None => None end.
Proof.
  unfold run. rewrite fold_left_app. destruct (fold_left _ p (Some s)); [done|].
  apply LimiterFacts.run_stuck.
Qed.

(** With [k] calls streaming, the next [n] pending calls enter one after
    the other when the semaphore has room for them. *)
Lemma enter_next (n : nat) :
  forall (k : nat) (v : Z) (rest : list phase),
    Z.of_nat n <= v ->
    run (List.map Enter (seq k n))
        (mk_state (mk_sem v) (replicate k Streaming ++ replicate n Pending ++ rest))
    = Some (mk_state (mk_sem (v - Z.of_nat n))
                     (replicate (k + n) Streaming ++ rest)).
Proof.
  induction n as [|n IH]; intros k v rest Hv.
  - simpl. rewrite Nat.add_0_r. unfold run. simpl. do 3 f_equal. lia.
  - cbn [seq List.map]. rewrite run_cons. cbn [step tasks sem].
    rewrite lookup_app_r by (rewrite length_replicate; lia).
    rewrite length_replicate, Nat.sub_diag. cbn [replicate app lookup list_lookup].
    unfold acquire, locked. cbn [_value].
    destruct (Z.eqb_spec v 0); [lia|].
    replace (<[k:=Streaming]>
               (replicate k Streaming ++ Pending :: replicate n Pending ++ rest)%list)
      with (replicate (S k) Streaming ++ replicate n Pending ++ rest)%list.
    + rewrite (IH (S k) (v - 1) rest) by lia. do 3 f_equal; [lia|].
      f_equal. lia.
    + rewrite <- (length_replicate k Streaming) at 2.
      rewrite (insert_app_r_alt _ _ (length (replicate k Streaming))) by lia.
      rewrite Nat.sub_diag, replicate_S_end, <- app_assoc. done.
Qed.

End LimiterMore.

(** X5. When there are no more calls than the bound, none of them waits:
    the schedule in which the [T] calls enter one after the other, with
    no release in between, runs, and leaves all of them streaming. *)
Theorem X5_all_enter_within_bound (size : Z) (T : nat) :
  Z.of_nat T <= size ->
  exists s0,
    Limiter.start size T = Ok s0 /\
    Limiter.run (enter_all T) s0
    = Some (Limiter.mk_state (Limiter.mk_sem (size - Z.of_nat T))
                             (replicate T Limiter.Streaming)).
Proof.
  intros HT. unfold Limiter.start, Limiter.Semaphore_new.
  destruct (Z.ltb_spec size 0); [lia|]. eexists. split; [reflexivity|].
  pose proof (LimiterMore.enter_next T 0 size [] HT) as Hrun.
  simpl in Hrun. rewrite !app_nil_r in Hrun. exact Hrun.
Qed.

(** X5 at the bound of [download_file] with ten calls. *)
Lemma X5_all_enter_within_bound_witness :
  exists s0,
    Limiter.start Limiter.download_file_bound 10 = Ok s0 /\
    Limiter.run (enter_all 10) s0
    = Some (Limiter.mk_state (Limiter.mk_sem 0) (replicate 10 Limiter.Streaming)).
Proof.
  destruct (X5_all_enter_within_bound Limiter.download_file_bound 10) as (s0 & H0 & H1).
  - unfold Limiter.download_file_bound. lia.
  - exists s0. split; [exact H0|exact H1].
Defined.

Module LimiterLive.
Import Limiter.

Lemma filter_insert_length {A} (f : A -> bool) (l : list A) (i : nat) (old new : A) :
  l !! i = Some old ->
  (length (List.filter f (<[i := new]> l)) + (if f old then 1 else 0)
   = length (List.filter f l) + (if f new then 1 else 0))%nat.
Proof.
  revert i. induction l as [|h t IH]; intros i Hi; [done|].
  destruct i as [|i]; simpl in Hi.
  - inversion Hi; subst h. simpl. destruct (f old), (f new); simpl; lia.
  - specialize (IH i Hi). simpl. destruct (f h); simpl; lia.
Qed.

Lemma filter_length_pos {A} (f : A -> bool) (l : list A) :
  (0 < length (List.filter f l))%nat -> exists i x, l !! i = Some x /\ f x = true.
Proof.
  induction l as [|h t IH]; simpl; [lia|].
  destruct (f h) eqn:Hh.
  - intros _. by exists 0%nat, h.
  - intros Hp. destruct (IH Hp) as (i & x & Hi & Hx). by exists (S i), x.
Qed.

Lemma filter_length_zero {A} (f : A -> bool) (l : list A) (i : nat) (x : A) :
  length (List.filter f l) = 0%nat -> l !! i = Some x -> f x = false.
Proof.
  revert i. induction l as [|h t IH]; intros i Hz Hi; [done|].
  simpl in Hz. destruct (f h) eqn:Hh; [done|].
  destruct i as [|i]; simpl in Hi; [by inversion Hi; subst|]. by eapply IH.
Qed.

(** From a state whose semaphore accounts for the streaming calls, under
    a bound of at least one, the calls that are left can all be run to
    their end. *)
Lemma drain (size : Z) (n : nat) :
  1 <= size ->
  forall s,
    _value (sem s) = size - Z.of_nat (streaming (tasks s)) ->
    unfinished (tasks s) = n ->
    exists more s',
      run more s = Some s' /\
      unfinished (tasks s') = 0%nat /\
      _value (sem s') = size - Z.of_nat (streaming (tasks s')) /\
      length (tasks s') = length (tasks s).
Proof.
  intros Hsize. induction n as [|n IH]; intros s Hv Hn.
  - exists [], s. by repeat split.
  - destruct (Nat.eq_dec (streaming (tasks s)) 0%nat) as [Hz|Hnz].
    + (* nobody streams: a pending call enters and leaves *)
      destruct (filter_length_pos (fun p => negb (is_exited p)) (tasks s))
        as (i & p & Hi & Hp); [unfold unfinished in Hn; lia|].
      assert (Hpend : p = Pending).
      { destruct p as [| |r]; [done| |done].
        pose proof (filter_length_zero is_streaming (tasks s) i Streaming Hz Hi). done. }
      subst p.
      set (s1 := mk_state (mk_sem (_value (sem s) - 1)) (<[i := Streaming]> (tasks s))).
      set (s2 := mk_state (mk_sem (_value (sem s1) + 1)) (<[i := Exited (Ok tt)]> (tasks s1))).
      assert (Hi1 : tasks s1 !! i = Some Streaming).
      { apply list_lookup_insert_eq. by eapply lookup_lt_Some. }
      pose proof (LimiterFacts.streaming_insert (tasks s) i Pending Streaming Hi) as Hw1.
      pose proof (LimiterFacts.streaming_insert (tasks s1) i Streaming (Exited (Ok tt)) Hi1) as Hw2.
      pose proof (filter_insert_length (fun p => negb (is_exited p)) (tasks s) i
                    Pending Streaming Hi) as Hu1.
      pose proof (filter_insert_length (fun p => negb (is_exited p)) (tasks s1) i
                    Streaming (Exited (Ok tt)) Hi1) as Hu2.
      unfold weight in Hw1, Hw2. simpl in Hw1, Hw2, Hu1, Hu2.
      destruct (IH s2) as (more & s' & Hrun & Hdone & Hv' & Hlen).
      * subst s2 s1. simpl in *. lia.
      * unfold unfinished in *. subst s2 s1. simpl in *. lia.
      * exists (Enter i :: Exit i (Ok tt) :: more), s'.
        split; [|split; [done|split; [done|]]].
        -- rewrite LimiterMore.run_cons. simpl. rewrite Hi. unfold acquire, locked.
           destruct (Z.eqb_spec (_value (sem s)) 0); [lia|].
           rewrite LimiterMore.run_cons. simpl. simpl in Hi1. rewrite Hi1. exact Hrun.
        -- rewrite Hlen. subst s2 s1. simpl. by rewrite !length_insert.
    + (* somebody streams: that call leaves *)
      destruct (filter_length_pos is_streaming (tasks s))
        as (i & p & Hi & Hp); [unfold streaming in Hnz; lia|].
      destruct p as [| |r]; try done.
      set (s1 := mk_state (mk_sem (_value (sem s) + 1)) (<[i := Exited (Ok tt)]> (tasks s))).
      pose proof (LimiterFacts.streaming_insert (tasks s) i Streaming (Exited (Ok tt)) Hi) as Hw1.
      pose proof (filter_insert_length (fun p => negb (is_exited p)) (tasks s) i
                    Streaming (Exited (Ok tt)) Hi) as Hu1.
      unfold weight in Hw1. simpl in Hw1, Hu1.
      destruct (IH s1) as (more & s' & Hrun & Hdone & Hv' & Hlen).
      * subst s1. simpl in *. lia.
      * unfold unfinished in *. subst s1. simpl in *. lia.
      * exists (Exit i (Ok tt) :: more), s'.
        split; [|split; [done|split; [done|]]].
        -- rewrite LimiterMore.run_cons. simpl. rewrite Hi. exact Hrun.
        -- rewrite Hlen. subst s1. simpl. by rewrite length_insert.
Qed.

Lemma unfinished_zero (ts : list phase) :
  unfinished ts = 0%nat -> all_exited ts /\ streaming ts = 0%nat.
Proof.
  unfold unfinished, all_exited, streaming. induction ts as [|p ts IH]; simpl; [done|].
  destruct p as [| |r]; simpl; try done. intros H. destruct (IH H) as [Ha Hs].
  split; [|done]. constructor; [by eexists|done].
Qed.

End LimiterLive.

Lemma limiter_step_length (a : Limiter.action) (s s' : Limiter.state) :
  Limiter.step a s = Some s' -> length (Limiter.tasks s') = length (Limiter.tasks s).
Proof.
  destruct a as [i|i r]; simpl; destruct (Limiter.tasks s !! i) as [[| |]|]; try done.
  - destruct (Limiter.acquire (Limiter.sem s)); [|done].
    intros [= <-]. simpl. apply length_insert.
  - intros [= <-]. simpl. apply length_insert.
Qed.

Lemma limiter_run_length (sched : list Limiter.action) (s0 s : Limiter.state) :
  Limiter.run sched s0 = Some s -> length (Limiter.tasks s) = length (Limiter.tasks s0).
Proof.
  revert s. induction sched as [|a p IH] using rev_ind; intros s Hr.
  - by inversion Hr.
  - rewrite LimiterFacts.run_snoc in Hr. destruct (Limiter.run p s0) as [sp|]; [|done].
    rewrite (limiter_step_length _ _ _ Hr). by apply IH.
Qed.

(** X6. Under a bound of at least one, no call is left waiting for ever:
    whatever the event loop has done so far, the schedule can be
    continued so that every one of the [T] calls has left the wrapper,
    and then the semaphore holds all its tickets again. *)
Theorem X6_every_call_can_finish (size : Z) (T : nat) (sched : list Limiter.action)
    (s0 s : Limiter.state) :
  1 <= size ->
  Limiter.start size T = Ok s0 ->
  Limiter.run sched s0 = Some s ->
  exists more s',
    Limiter.run (sched ++ more) s0 = Some s' /\
    length (Limiter.tasks s') = T /\
    all_exited (Limiter.tasks s') /\
    Limiter.sem s' = Limiter.mk_sem size.
Proof.
  intros Hsize Hs Hr.
  pose proof (LimiterFacts.invariant_run _ _ _ _ _ Hs Hr) as [Hv _ _ _].
  destruct (LimiterLive.drain size (unfinished (Limiter.tasks s)) Hsize s Hv eq_refl)
    as (more & s' & Hrun & Hdone & Hv' & Hlen).
  exists more, s'. rewrite LimiterMore.run_app, Hr.
  destruct (LimiterLive.unfinished_zero _ Hdone) as [Hall Hstr].
  split; [done|]. split; [|split; [done|]].
  - rewrite Hlen, (limiter_run_length _ _ _ Hr).
    unfold Limiter.start in Hs. destruct (Limiter.Semaphore_new size); [|done].
    inversion Hs. simpl. apply length_replicate.
  - rewrite Hstr in Hv'. destruct s' as [[v] ts]. simpl in *. f_equal. lia.
Qed.

(** X6 at the bound 1 with two calls, after the first has entered. *)
Lemma X6_every_call_can_finish_witness :
  exists s0 more s',
    Limiter.start 1 2 = Ok s0 /\
    Limiter.run ([Limiter.Enter 0] ++ more) s0 = Some s' /\
    all_exited (Limiter.tasks s') /\
    Limiter.sem s' = Limiter.mk_sem 1.
Proof.
  eexists.
  destruct (X6_every_call_can_finish 1 2 [Limiter.Enter 0] _ _ ltac:(lia) eq_refl eq_refl)
    as (more & s' & Hrun & _ & Hall & Hsem).
  exists more, s'. split; [reflexivity|]. split; [exact Hrun|]. split; [exact Hall|exact Hsem].
Defined.

(** X7. The bound has to be positive to let anything through: a negative
    bound makes [asyncio.Semaphore] raise [ValueError] when the decorator
    is applied, and under the bound 0 no call ever enters: the only
    schedule that runs is the empty one. *)
Theorem X7_bound_zero_blocks (T : nat) (sched : list Limiter.action)
    (s0 s : Limiter.state) :
  (forall size, size < 0 -> Limiter.start size T = Raise ValueError) /\
  (Limiter.start 0 T = Ok s0 -> Limiter.run sched s0 = Some s -> sched = [] /\ s = s0).
Proof.
  split.
  - intros size Hneg. unfold Limiter.start, Limiter.Semaphore_new.
    by destruct (Z.ltb_spec size 0); [|lia].
  - intros [= <-] Hr. destruct sched as [|a sched]; [by inversion Hr|].
    rewrite LimiterMore.run_cons in Hr. destruct a as [i|i r]; simpl in Hr.
    + destruct (replicate T Limiter.Pending !! i) as [[| |]|]; done.
    + destruct (replicate T Limiter.Pending !! i) as [p|] eqn:Hp; [|done].
      apply lookup_replicate in Hp as [-> _]. done.
Qed.

(** X7 with three calls: the first cannot enter under the bound 0. *)
Lemma X7_bound_zero_blocks_witness :
  Limiter.start (-1) 3 = Raise ValueError /\
  exists s0, Limiter.start 0 3 = Ok s0 /\
             Limiter.run [Limiter.Enter 0] s0 = None /\
             Limiter.run [] s0 = Some s0.
Proof.
  split.
  - apply (proj1 (X7_bound_zero_blocks 3 [] (Limiter.mk_state (Limiter.mk_sem 0) [])
                    (Limiter.mk_state (Limiter.mk_sem 0) []))). lia.
  - eexists. split; [reflexivity|]. split; reflexivity.
Defined.

(** ** The selection of the link *)

Lemma filter_rule (hrefs : list string) :
  List.filter (fun href => str.startswith href "100MB") (zip_links hrefs)
  = List.filter matches_rule hrefs.
Proof.
  unfold zip_links, matches_rule. induction hrefs as [|h t IH]; [done|].
  simpl. destruct (str.endswith h ".zip"); simpl; [|done].
  destruct (str.startswith h "100MB"); by rewrite IH.
Qed.

Lemma getitem_0 {A} (l : list A) :
  py.list_getitem l 0 = match l with x :: _ => Ok x | [] => Raise IndexError end.
Proof. by destruct l. Qed.

(** The first element that passes a filter, with what comes before it. *)
Lemma filter_head {A} (f : A -> bool) (l : list A) :
  match List.filter f l with
  | x :: _ => exists pre post, l = (pre ++ x :: post)%list /\ f x = true /\
                               Forall (fun y => f y = false) pre
  | [] => Forall (fun y => f y = false) l
  end.
Proof.
  induction l as [|h t IH]; simpl; [done|].
  destruct (f h) eqn:Hh.
  - exists [], t. by repeat split.
  - destruct (List.filter f t) as [|x r].
    + by constructor.
    + destruct IH as (pre & post & -> & Hx & Hpre).
      exists (h :: pre), post. split; [done|]. split; [done|]. by constructor.
Qed.

(** X8. [scrape] selects the first link, in document order, that ends
    with [.zip] and starts with [100MB]: every link before the selected
    one fails the rule.  When no link passes the rule, the selection
    raises [IndexError]. *)
Theorem X8_selects_first_match (hrefs : list string) :
  match select_target (zip_links hrefs) with
  | Ok t => exists pre post, hrefs = (pre ++ t :: post)%list /\ matches_rule t = true /\
                             Forall (fun h => matches_rule h = false) pre
  | Raise e => e = IndexError /\ Forall (fun h => matches_rule h = false) hrefs
  end.
Proof.
  unfold select_target. rewrite filter_rule, getitem_0.
  pose proof (filter_head matches_rule hrefs) as H.
  destruct (List.filter matches_rule hrefs); [by split|exact H].
Qed.

(** ** The name of the output file *)

Lemma endswith_cons (x : ascii) (r p : string) :
  str.endswith (String x r) p
  = if (String.length p <=? String.length r)%nat then str.endswith r p
    else String.eqb (String x r) p.
Proof.
  unfold str.endswith. cbn [String.length].
  destruct (Nat.leb_spec (String.length p) (String.length r)) as [Hle|Hgt].
  - replace (String.length p <=? S (String.length r))%nat with true
      by (symmetry; apply Nat.leb_le; lia).
    replace (S (String.length r) - String.length p)%nat
      with (S (String.length r - String.length p)) by lia.
    reflexivity.
  - destruct (Nat.leb_spec (String.length p) (S (String.length r))) as [Hle'|Hgt'].
    + replace (S (String.length r) - String.length p)%nat with 0%nat by lia. reflexivity.
    + cbn [andb]. symmetry. apply String.eqb_neq. intros <-. simpl in Hgt'. lia.
Qed.

(** The basename keeps a suffix that has no slash in it; here [.zip]. *)
Lemma basename_keeps_zip (s : string) :
  str.endswith s ".zip" = true -> str.endswith (basename s) ".zip" = true.
Proof.
  induction s as [|x r IH]; [done|].
  rewrite basename_cons, endswith_cons.
  destruct (Nat.leb_spec (String.length ".zip") (String.length r)) as [Hle|Hgt].
  - intros Hr. destruct (str.rfind r "/" =? -1); [|by apply IH].
    destruct (Ascii.eqb x "/"); [done|].
    rewrite endswith_cons. by destruct (Nat.leb_spec (String.length ".zip") (String.length r)); [|lia].
  - intros Heq. apply String.eqb_eq in Heq. inversion Heq; subst. reflexivity.
Qed.

Lemma basename_no_slash_inside (s : string) : str.rfind (basename s) "/" = -1.
Proof.
  induction s as [|x r IH]; [done|].
  rewrite basename_cons. destruct (Z.eqb_spec (str.rfind r "/") (-1)) as [Hn|Hn]; [|done].
  destruct (Ascii.eqb x "/") eqn:Hx; [done|].
  by rewrite rfind_cons, Hn, Hx.
Qed.

(** X9. The link that [scrape] selects always yields a usable fall-back
    name: for a response without a [Content-Disposition] header (or with
    an empty one), the name resolved for the URL that [scrape] hands to
    [download_file] is the last path segment of that URL, which ends with
    [.zip], is not empty and contains no slash. *)
Theorem X9_fallback_name_is_zip (hrefs : list string) (t : string) (resp : response)
    (w : world) :
  select_target (zip_links hrefs) = Ok t ->
  truthy_str (headers_get (headers resp) "Content-Disposition") = false ->
  exists name,
    resolve_filename (listing_url +:+ t) resp w = (Ok (Some name), w) /\
    name = basename (listing_url +:+ t) /\
    str.endswith name ".zip" = true /\
    name <> "" /\
    str.rfind name "/" = -1.
Proof.
  intros Ht Hcd. exists (basename (listing_url +:+ t)).
  split; [unfold resolve_filename; by rewrite Hcd|]. split; [done|].
  apply select_target_Ok in Ht as (_ & Hzip & _).
  assert (Hz : str.endswith (basename (listing_url +:+ t)) ".zip" = true).
  { apply basename_keeps_zip.
    assert (Hgen : forall u, str.endswith (u +:+ t) ".zip" = true).
    { intros u. induction u as [|x u IHu]; [done|].
      change (String x u +:+ t) with (String x (u +:+ t)). rewrite endswith_cons.
      destruct (Nat.leb_spec (String.length ".zip") (String.length (u +:+ t))) as [|Hgt];
        [done|].
      rewrite append_length in Hgt.
      unfold str.endswith in Hzip. apply andb_true_iff in Hzip as [Hlen _].
      apply Nat.leb_le in Hlen. lia. }
    apply Hgen. }
  split; [done|]. split; [|apply basename_no_slash_inside].
  intros Hempty. by rewrite Hempty in Hz.
Qed.

(** X9 on the fixture: the name is [100MB-1.zip]. *)
Lemma X9_fallback_name_is_zip_witness :
  resolve_filename (listing_url +:+ "100MB-1.zip") Examples.no_length
                   (initial_world Examples.manager)
  = (Ok (Some "100MB-1.zip"), initial_world Examples.manager).
Proof.
  destruct (X9_fallback_name_is_zip Examples.fixture_links "100MB-1.zip" Examples.no_length
              (initial_world Examples.manager) eq_refl eq_refl) as (name & Hr & -> & _).
  exact Hr.
Defined.

(** ** The download task, path by path *)

(** [finish] on a started bar. *)
Lemma finish_started (b : ProgressBar) (mx : Z) :
  maxval b = Some mx -> 0 <= mx ->
  progressbar.finish b = Ok (progressbar.set_currval b mx).
Proof.
  intros H Hmx. unfold progressbar.finish, progressbar.update. rewrite H.
  destruct (Z.leb_spec 0 mx); [|lia]. destruct (Z.leb_spec mx mx); [done|lia].
Qed.

(** What [install_sub_bar] does after its [yield], on a started bar. *)
Lemma install_sub_bar_exit_fresh (slot : option Z) (b : ProgressBar) (mx : Z)
    m bs cs lg fs rq dl :
  maxval b = Some mx -> 0 <= mx ->
  install_sub_bar_exit (slot, length bs) (mk_world m (bs ++ [b]) cs lg fs rq dl)
  = match (match slot with
           | Some s => @ProgressBarManager._free_slot bar_ref m s
           | None => Ok m
           end) with
    | Ok m2 =>
        (Ok tt, mk_world m2 (bs ++ [progressbar.set_currval b mx])
                         (cs ++ [CallFinish (length bs)]) lg fs rq dl)
    | Raise e =>
        (Raise e, mk_world m (bs ++ [progressbar.set_currval b mx])
                           (cs ++ [CallFinish (length bs)]) lg fs rq dl)
    end.
Proof.
  intros Hb Hmx. unfold install_sub_bar_exit.
  erewrite bind_Ok; cycle 1.
  { unfold bar_finish. rewrite bar_method_fresh, (finish_started b mx) by done. reflexivity. }
  destruct slot as [s|]; [|reflexivity].
  unfold free_slot. cbn [PROGRESS_MANAGER].
  match goal with
  | |- context [@ProgressBarManager._free_slot ?a ?b ?c] =>
      change (@ProgressBarManager._free_slot a b c)
        with (@ProgressBarManager._free_slot bar_ref m s)
  end.
  by destruct (@ProgressBarManager._free_slot bar_ref m s).
Qed.

Lemma total_len_nonneg (cs : list string) : 0 <= total_len cs.
Proof.
  induction cs as [|c cs IH]; simpl; [done|]. pose proof (len_nonneg c). lia.
Qed.


(** [start] succeeds on a bar whose maximum is missing or not negative. *)
Lemma start_Ok (b : ProgressBar) :
  0 <= default 100 (maxval b) ->
  progressbar.start b
  = Ok (progressbar.mk (widgets b) (Some (default 100 (maxval b))) 0 (fd b)).
Proof.
  intros H. unfold progressbar.start, progressbar.update. destruct b as [ws [mx|] cv f];
    simpl in *; [|done].
  destruct (Z.ltb_spec mx 0); [lia|]. by destruct (Z.leb_spec 0 mx); [|lia].
Qed.

(** [install_sub_bar] up to its [yield], on a bar just made. *)
Lemma install_sub_bar_enter_new (b : ProgressBar) m bs cs lg fs rq dl :
  0 <= default 100 (maxval b) ->
  install_sub_bar_enter (length bs) (mk_world m (bs ++ [b]) cs lg fs rq dl)
  = match ProgressBarManager._alloc_slot m with
    | Raise e => (Raise e, mk_world m (bs ++ [b]) cs lg fs rq dl)
    | Ok (Some s) =>
        match @ProgressBarManager.set_line bar_ref m s (Some (length bs)) with
        | Raise e => (Raise e, mk_world m (bs ++ [b]) cs lg fs rq dl)
        | Ok m1 =>
            (Ok (Some s, length bs),
             mk_world m1
               (bs ++ [progressbar.mk
                         (TERM_yellow :: Text (pretty s +:+ ": ") :: widgets b)
                         (Some (default 100 (maxval b))) 0
                         (Writer (ProgressBarManager._get_sub_line m1 s))])
               (cs ++ [CallStart (length bs)]) lg fs rq dl)
        end
    | Ok None =>
        (Ok (None, length bs),
         mk_world m
           (bs ++ [progressbar.mk (TERM_yellow :: widgets b)
                     (Some (default 100 (maxval b))) 0 DevNull])
           (cs ++ [CallStart (length bs)]) lg fs rq dl)
    end.
Proof.
  intros Hb. unfold install_sub_bar_enter.
  unfold bind at 1. unfold alloc_slot at 1. cbn [PROGRESS_MANAGER].
  destruct (ProgressBarManager._alloc_slot m) as [[s|]|e]; [| |done].
  - unfold bind at 1. unfold bind at 1. unfold set_line at 1. cbn [PROGRESS_MANAGER].
    match goal with
    | |- context [@ProgressBarManager.set_line ?a ?b ?c ?d] =>
        change (@ProgressBarManager.set_line a b c d)
          with (@ProgressBarManager.set_line bar_ref m s (Some (length bs)))
    end.
    destruct (@ProgressBarManager.set_line bar_ref m s (Some (length bs))) as [m1|e]; [|done].
    unfold set_manager. cbn [bars bar_calls log files requests downloads].
    erewrite bind_Ok by apply bar_modify_fresh.
    erewrite bind_Ok by reflexivity.
    rewrite bar_modify_fresh.
    erewrite bind_Ok by apply bar_modify_fresh.
    erewrite bind_Ok; [reflexivity|].
    unfold bar_start. rewrite bar_method_fresh, start_Ok by (by destruct b).
    by destruct b.
  - erewrite bind_Ok by apply bar_modify_fresh.
    erewrite bind_Ok by apply bar_modify_fresh.
    erewrite bind_Ok; [reflexivity|].
    unfold bar_start. rewrite bar_method_fresh, start_Ok by (by destruct b).
    by destruct b.
Qed.

(** When no write fails, every chunk is written. *)
Lemma writes_complete write_error (p : path) (cs : list string) (cur : string) :
  write_exn (writes write_error p cur cs) = None ->
  writes write_error p cur cs = (cs, None).
Proof.
  revert cur. induction cs as [|c cs IH]; intros cur; [done|].
  unfold write_exn. cbn [writes]. destruct (write_error p cur c) as [errno|]; [done|].
  cbn [snd fst]. intros H.
  assert (Hn : write_exn (writes write_error p (cur +:+ c) cs) = None) by exact H.
  by rewrite (IH _ Hn).
Qed.

(** The loop over the chunks when the size is known and the body does not
    exceed it: every chunk advances the bar and is then handed to
    [write], up to the first write that fails. *)
Lemma for_chunks_fits write_error (fsz : option Z) (p : path) (err : option exn) (mx : Z)
    (chunks : list string) :
  truthy_int fsz = true ->
  forall (b : ProgressBar) m bs cs lg fs rq dl,
    maxval b = Some mx ->
    0 <= currval b ->
    currval b + total_len chunks <= mx ->
    for_chunks chunks err (stream_body write_error fsz (length bs) p)
               (mk_world m (bs ++ [b]) cs lg fs rq dl)
    = let wr := writes write_error p (default "" (fs !! p)) chunks in
      (match loop_exn wr err with Some e => Raise e | None => Ok tt end,
       mk_world m
         (bs ++ [progressbar.set_currval b (currval b + total_len (attempted wr))])
         (cs ++ List.map (CallUpdate (length bs))
                  (prefix_sums (currval b) (List.map str.len (attempted wr))))
         lg
         (fold_left (fun fs c => <[p := default "" (fs !! p) +:+ c]> fs) (fst wr) fs)
         rq dl).
Proof.
  intros Ht. induction chunks as [|c chunks IH]; intros b m bs cs lg fs rq dl Hmx Hcv Hfit.
  - simpl. rewrite Z.add_0_r, app_nil_r. destruct b. by destruct err.
  - rewrite for_chunks_cons, stream_body_with_size by done. cbv zeta.
    unfold add_bar_call.
    cbn [bars files PROGRESS_MANAGER bar_calls log requests downloads].
    rewrite lookup_total_fresh. simpl in Hfit.
    pose proof (len_nonneg c) as Hc. pose proof (total_len_nonneg chunks) as Htot.
    unfold progressbar.update. rewrite Hmx.
    destruct (Z.leb_spec 0 (currval b + str.len c)); [|lia].
    destruct (Z.leb_spec (currval b + str.len c) mx); [|lia].
    cbn [andb]. unfold file_write, set_files, set_bars. cbv zeta.
    cbn [bars files PROGRESS_MANAGER bar_calls log requests downloads].
    rewrite insert_fresh. cbn [writes].
    destruct (write_error p (default "" (fs !! p)) c) as [errno|].
    + unfold attempted, loop_exn, write_exn. cbn [fst snd app fold_left total_len fold_right
        List.map prefix_sums].
      rewrite Z.add_0_r. reflexivity.
    + rewrite (IH (progressbar.set_currval b (currval b + str.len c)))
        by (simpl; first [exact Hmx | lia]).
      cbv zeta. rewrite lookup_insert_eq.
      unfold attempted, loop_exn, write_exn. cbn [fst snd default from_option].
      cbn [app fold_left total_len fold_right List.map prefix_sums currval
           progressbar.set_currval maxval widgets fd].
      rewrite <- app_assoc. cbn [app]. unfold id.
      rewrite (Z.add_assoc (currval b) (str.len c)). reflexivity.
Qed.

Section Paths.
Variable open_wb : path -> option exn.
Variable write_error : path -> string -> string -> option string.

(** The whole of lines 133 to 146 when the announced size, if any, is
    zero or is not exceeded, in terms of the world before.  [wr] tells
    which chunks the disk takes. *)
Lemma stream_to_file_fits (resp : response) (fs0 : option Z) (p : path)
    m bs cs lg fs rq dl :
  fits fs0 (total_len (chunks resp)) ->
  stream_to_file open_wb write_error resp fs0 p (mk_world m bs cs lg fs rq dl)
  = match open_wb p with
    | Some e => (Raise e, mk_world m bs cs lg fs rq dl)
    | None =>
      let fs1 := <[p := ""]> fs in
      let b := progressbar.new (Text (snd p) :: SUB_BAR_WIDGETS) fs0 in
      let r := length bs in
      let mx := default 100 fs0 in
      let wr := writes write_error p "" (chunks resp) in
      let upd := if truthy_int fs0
                 then List.map (CallUpdate r) (prefix_sums 0 (List.map str.len (attempted wr)))
                 else [] in
      let cur := if truthy_int fs0 then total_len (attempted wr) else 0 in
      match ProgressBarManager._alloc_slot m with
      | Raise e => (Raise e, mk_world m (bs ++ [b]) cs lg fs1 rq dl)
      | Ok slot =>
        match (match slot with
               | Some s => @ProgressBarManager.set_line bar_ref m s (Some r)
               | None => Ok m
               end) with
        | Raise e => (Raise e, mk_world m (bs ++ [b]) cs lg fs1 rq dl)
        | Ok m1 =>
          let ws := match slot with
                    | Some s => TERM_yellow :: Text (pretty s +:+ ": ") :: widgets b
                    | None => TERM_yellow :: widgets b
                    end in
          let f := match slot with
                   | Some s => Writer (ProgressBarManager._get_sub_line m1 s)
                   | None => DevNull
                   end in
          let fs2 := fold_left (fun fs c => <[p := default "" (fs !! p) +:+ c]> fs)
                               (fst wr) fs1 in
          match loop_exn wr (stream_error resp) with
          | Some e =>
              (Raise e, mk_world m1 (bs ++ [progressbar.mk ws (Some mx) cur f])
                                 ((cs ++ [CallStart r]) ++ upd) lg fs2 rq dl)
          | None =>
            match (match slot with
                   | Some s => @ProgressBarManager._free_slot bar_ref m1 s
                   | None => Ok m1
                   end) with
            | Ok m2 =>
                (Ok tt, mk_world m2 (bs ++ [progressbar.mk ws (Some mx) mx f])
                          (((cs ++ [CallStart r]) ++ upd) ++ [CallFinish r]) lg fs2 rq dl)
            | Raise e =>
                (Raise e, mk_world m1 (bs ++ [progressbar.mk ws (Some mx) mx f])
                            (((cs ++ [CallStart r]) ++ upd) ++ [CallFinish r]) lg fs2 rq dl)
            end
          end
        end
      end
    end.
Proof.
  intros Hfit. pose proof (total_len_nonneg (chunks resp)) as Htot.
  assert (Hmx : 0 <= default 100 fs0).
  { destruct fs0 as [n|]; simpl in *; lia. }
  unfold stream_to_file, with_open_wb. destruct (open_wb p) as [e|]; [done|].
  erewrite bind_Ok by reflexivity.
  erewrite bind_Ok by reflexivity.
  unfold install_sub_bar, with_contextmanager, set_files, set_bars.
  cbn [PROGRESS_MANAGER bars bar_calls log files requests downloads].
  rewrite install_sub_bar_enter_new by done.
  cbv zeta. cbn [maxval widgets progressbar.new].
  set (wr := writes write_error p "" (chunks resp)).
  assert (Hloop : forall m1 ws f cs1,
    for_chunks (chunks resp) (stream_error resp) (stream_body write_error fs0 (length bs) p)
      (mk_world m1 (bs ++ [progressbar.mk ws (Some (default 100 fs0)) 0 f]) cs1 lg
                (<[p := ""]> fs) rq dl)
    = (match loop_exn wr (stream_error resp) with Some e => Raise e | None => Ok tt end,
       mk_world m1
         (bs ++ [progressbar.mk ws (Some (default 100 fs0))
                   (if truthy_int fs0 then total_len (attempted wr) else 0) f])
         (cs1 ++ (if truthy_int fs0
                  then List.map (CallUpdate (length bs))
                         (prefix_sums 0 (List.map str.len (attempted wr)))
                  else []))
         lg
         (fold_left (fun fs c => <[p := default "" (fs !! p) +:+ c]> fs) (fst wr)
                    (<[p := ""]> fs))
         rq dl)).
  { intros m1 ws f cs1. destruct (truthy_int fs0) eqn:Ht.
    - rewrite (for_chunks_fits write_error fs0 p (stream_error resp) (default 100 fs0));
        try done.
      + cbv zeta. rewrite lookup_insert_eq. reflexivity.
      + simpl. destruct fs0 as [n|]; [|done]. simpl in *.
        destruct (Z.eqb_spec n 0); [done|]. lia.
    - rewrite (for_chunks_no_size write_error fs0) by done. cbv zeta. unfold set_files.
      cbn [PROGRESS_MANAGER bars bar_calls log files requests downloads].
      rewrite lookup_insert_eq. by rewrite app_nil_r. }
  destruct (ProgressBarManager._alloc_slot m) as [[s|]|e]; [| |done].
  - destruct (@ProgressBarManager.set_line bar_ref m s (Some (length bs))) as [m1|e];
      [|done].
    unfold stream_chunks. rewrite Hloop.
    destruct (loop_exn wr (stream_error resp)) as [e|]; [reflexivity|].
    rewrite (install_sub_bar_exit_fresh _ _ (default 100 fs0)) by done.
    by destruct (@ProgressBarManager._free_slot bar_ref m1 s).
  - unfold stream_chunks. rewrite Hloop.
    destruct (loop_exn wr (stream_error resp)) as [e|]; [reflexivity|].
    by rewrite (install_sub_bar_exit_fresh _ _ (default 100 fs0)) by done.
Qed.

End Paths.

Lemma Ok_inj {A} (a b : A) : Ok a = Ok b -> a = b.
Proof. by intros [= ->]. Qed.

Section DownloadPaths.
Variable http_get : string -> result response.
Variable open_wb : path -> option exn.
Variable write_error : path -> string -> string -> option string.

(** The name of the output file and the log record that goes with it do
    not depend on the world. *)
Lemma resolve_filename_explicit (url : string) (resp : response) (w : world) :
  resolve_filename url resp w
  = let cd := headers_get (headers resp) "Content-Disposition" in
    let name := if truthy_str cd
                then snd (cgi.parse_header (default "" cd)) !! "filename"
                else Some (basename url) in
    (Ok name,
     if truthy_str cd then add_log w (LogGotFilename name (basename url)) else w).
Proof.
  unfold resolve_filename. cbv zeta. destruct (truthy_str _); [|done].
  by destruct (cgi.parse_header _).
Qed.

Lemma resolve_file_size_explicit (resp : response) (w w0 : world) :
  resolve_file_size resp w = (fst (resolve_file_size resp w0), w).
Proof.
  unfold resolve_file_size. destruct (truthy_str _); [|done].
  unfold bind, lift. by destruct (str.int _).
Qed.

(** [download_file] up to the point where the output file is opened. *)
Lemma download_file_resolved (url folder f : string) (resp : response)
    (fsz : option Z) (w : world) :
  http_get url = Ok resp ->
  fst (resolve_filename url resp w) = Ok (Some f) ->
  fst (resolve_file_size resp w) = Ok fsz ->
  exists seen,
    Forall (fun r => record_level r = DEBUG) seen /\
    download_file http_get open_wb write_error url folder w
    = try_except (stream_to_file open_wb write_error resp fsz (folder, f)) (download_handlers url)
                 (world_at_stream w url folder seen).
Proof.
  intros Hg Hf Hs. rewrite resolve_filename_explicit in Hf. cbv zeta in Hf. cbn [fst] in Hf.
  exists (LogDownloading url folder
          :: if truthy_str (headers_get (headers resp) "Content-Disposition")
             then [LogGotFilename (Some f) (basename url)] else []).
  split.
  { constructor; [done|]. destruct (truthy_str _); by repeat constructor. }
  unfold download_file, download_file_body.
  erewrite bind_Ok by reflexivity. unfold try_except.
  erewrite bind_Ok by reflexivity.
  erewrite bind_Ok by (unfold session_get; rewrite Hg; reflexivity).
  erewrite bind_Ok by apply resolve_filename_explicit.
  cbv zeta. apply Ok_inj in Hf. rewrite Hf.
  erewrite bind_Ok by (rewrite (resolve_file_size_explicit resp _ w), Hs; reflexivity).
  erewrite bind_Ok by reflexivity.
  destruct w as [m bs cs lg fs rq dl]. unfold world_at_stream, add_log, add_request, add_download.
  cbn [PROGRESS_MANAGER bars bar_calls log files requests downloads].
  destruct (truthy_str _); cbn [PROGRESS_MANAGER bars bar_calls log files requests downloads];
    rewrite <- ?app_assoc; reflexivity.
Qed.

End DownloadPaths.

Lemma alloc_slot_total {Bar} (m : ProgressBarManager.t Bar) :
  exists o, ProgressBarManager._alloc_slot m = Ok o.
Proof.
  unfold ProgressBarManager._alloc_slot.
  destruct (ProgressBarManager.None_in _) eqn:Hin; [|by eexists].
  destruct (None_in_true _ Hin) as [i ->]. by eexists.
Qed.

(** The claim of an allocated slot succeeds, and freeing it gives the
    manager back. *)
Lemma claim_then_free {Bar} (m : ProgressBarManager.t Bar) (s : Z) (b : Bar) :
  ProgressBarManager._alloc_slot m = Ok (Some s) ->
  exists m1, ProgressBarManager.set_line m s (Some b) = Ok m1 /\
             ProgressBarManager._free_slot m1 s = Ok m.
Proof.
  intros Ha. destruct (alloc_slot_Some m s Ha) as (Hs & Hfree & _).
  eexists. split; [by apply set_line_in_range|].
  unfold ProgressBarManager._free_slot.
  rewrite set_line_in_range by (simpl; rewrite length_insert; lia).
  unfold ProgressBarManager.set_lines. cbn [ProgressBarManager._lines
    ProgressBarManager._main_coords ProgressBarManager._sub_coords].
  rewrite list_insert_insert_eq, list_insert_id by done. by destruct m.
Qed.

(** The writes of the loop append the chunks to what the file holds. *)
Lemma fold_writes_lookup (p : path) (cs : list string) (fs : gmap path string) (s : string) :
  fs !! p = Some s ->
  fold_left (fun fs c => <[p := default "" (fs !! p) +:+ c]> fs) cs fs !! p
  = Some (s +:+ fold_right String.append "" cs).
Proof.
  revert fs s. induction cs as [|c cs IH]; intros fs s Hs; simpl.
  - rewrite Hs. by rewrite append_empty_r.
  - rewrite (IH _ (s +:+ c)).
    + by rewrite append_assoc.
    + rewrite Hs. simpl. apply lookup_insert_eq.
Qed.

(** What the handlers of [download_file] make of an exception. *)
Lemma handlers_outcome (url : string) (e : exn) (w : world) :
  match download_handlers url e with
  | Some k => k w
  | None => (Raise e, w)
  end
  = (if caught_by_download e then Ok tt else Raise e,
     if caught_by_download e then add_log w (error_record url e) else w).
Proof. by destruct e. Qed.

(** ** A size of zero and no size *)

Section ZeroLength.
Variable open_wb : path -> option exn.
Variable write_error : path -> string -> string -> option string.

(** The name of the output file depends on the response through its
    [Content-Disposition] header only. *)
Lemma resolve_filename_header (url : string) (resp0 respN : response) :
  headers_get (headers resp0) "Content-Disposition"
  = headers_get (headers respN) "Content-Disposition" ->
  resolve_filename url resp0 = resolve_filename url respN.
Proof. intros H. unfold resolve_filename. by rewrite H. Qed.

Lemma resolve_file_size_zero (resp : response) (w : world) :
  headers_get (headers resp) "Content-Length" = Some "0" ->
  resolve_file_size resp w = (Ok (Some 0), w).
Proof. intros H. unfold resolve_file_size. rewrite H. reflexivity. Qed.

Lemma resolve_file_size_absent (resp : response) (w : world) :
  headers_get (headers resp) "Content-Length" = None ->
  resolve_file_size resp w = (Ok None, w).
Proof. intros H. unfold resolve_file_size. rewrite H. reflexivity. Qed.

(** [download_file] up to the point where the size is known. *)
Lemma download_file_steps (http_get : string -> result response) (url folder : string)
    (resp : response) (fsz : option Z) (w : world) :
  http_get url = Ok resp ->
  (forall w', resolve_file_size resp w' = (Ok fsz, w')) ->
  download_file http_get open_wb write_error url folder w
  = try_except
      (filename <- resolve_filename url resp ;;
       p <- lift (pathlib_Path folder filename) ;;
       stream_to_file open_wb write_error resp fsz p)
      (download_handlers url)
      (add_request (add_log (add_download w (url, folder)) (LogDownloading url folder)) url).
Proof.
  intros Hg Hsz. unfold download_file, download_file_body.
  erewrite bind_Ok by reflexivity. unfold try_except.
  erewrite bind_Ok by reflexivity.
  erewrite bind_Ok by (unfold session_get; rewrite Hg; reflexivity).
  f_equal. unfold bind.
  destruct (resolve_filename url resp _) as [[fn|e] w2]; [|done].
  by rewrite Hsz.
Qed.

End ZeroLength.

Ltac same_worlds :=
  unfold same_but_bar_values, add_log;
  cbn [PROGRESS_MANAGER bars bar_calls log files requests downloads fst snd];
  rewrite ?map_app; repeat split; reflexivity.




(** ** The outcomes of a download *)



Lemma total_len_app (l1 l2 : list string) :
  total_len (l1 ++ l2) = total_len l1 + total_len l2.
Proof. induction l1 as [|c l1 IH]; simpl; [done|]. rewrite IH. lia. Qed.

(** Without an error of the stream, only a write can end the loop. *)
Lemma loop_exn_write (wr : list string * option (string * string)) (e : exn) :
  loop_exn wr None = Some e -> exists c errno, snd wr = Some (c, errno) /\ e = OSError errno.
Proof.
  unfold loop_exn, write_exn. destruct (snd wr) as [[c errno]|]; [|done].
  intros [= <-]. by exists c, errno.
Qed.



(** X12. When the output file cannot be opened, nothing else happens: no
    progress bar is made, no slot is taken and no file is written.  An
    [OSError] (or a client error or timeout) is logged and [download_file]
    returns; any other exception leaves [download_file]. *)
Theorem X12_open_failure
    (http_get : string -> result response) (open_wb : path -> option exn)
    (write_error : path -> string -> string -> option string)
    (url folder f : string) (resp : response) (fsz : option Z) (e : exn) (w : world) :
  http_get url = Ok resp ->
  fst (resolve_filename url resp w) = Ok (Some f) ->
  fst (resolve_file_size resp w) = Ok fsz ->
  open_wb (folder, f) = Some e ->
  exists seen,
    Forall (fun r => record_level r = DEBUG) seen /\
    download_file http_get open_wb write_error url folder w
    = (if caught_by_download e then Ok tt else Raise e,
       mk_world (PROGRESS_MANAGER w) (bars w) (bar_calls w)
                (log w ++ seen ++ if caught_by_download e then [error_record url e] else [])
                (files w) (requests w ++ [url]) (downloads w ++ [(url, folder)])).
Proof.
  intros Hg Hf Hs Hopen.
  destruct (download_file_resolved http_get open_wb write_error url folder f resp fsz w Hg Hf Hs)
    as (seen & Hseen & ->).
  exists seen. split; [done|].
  unfold try_except, stream_to_file, with_open_wb. rewrite Hopen. unfold raise.
  rewrite handlers_outcome. unfold world_at_stream, add_log.
  destruct (caught_by_download e); simpl; by rewrite ?app_nil_r, <- ?app_assoc.
Qed.

(** X12 on a directory that is not writable. *)
Lemma X12_open_failure_witness :
  download_file (Examples.serve Examples.whole_transfer)
                (fun _ => Some (OSError "EACCES")) Examples.write_ok Examples.file_url "/tmp/"
                (initial_world Examples.manager)
  = (Ok tt,
     mk_world Examples.manager [] []
              [LogDownloading Examples.file_url "/tmp/"; LogWriteFailed (OSError "EACCES")]
              ∅ [Examples.file_url] [(Examples.file_url, "/tmp/")]).
Proof.
  destruct (X12_open_failure (Examples.serve Examples.whole_transfer)
              (fun _ => Some (OSError "EACCES")) Examples.write_ok
              Examples.file_url "/tmp/" "100MB.zip"
              Examples.whole_transfer (Some 6) (OSError "EACCES")
              (initial_world Examples.manager)) as (seen & _ & H); try reflexivity.
Defined.

(** X13. When the request itself fails, [download_file] touches nothing
    but the log: a client error, a timeout or an [OSError] is logged and
    the call returns; any other exception leaves [download_file]. *)
Theorem X13_request_failure
    (http_get : string -> result response) (open_wb : path -> option exn)
    (write_error : path -> string -> string -> option string)
    (url folder : string) (e : exn) (w : world) :
  http_get url = Raise e ->
  download_file http_get open_wb write_error url folder w
  = (if caught_by_download e then Ok tt else Raise e,
     mk_world (PROGRESS_MANAGER w) (bars w) (bar_calls w)
              (log w ++ LogDownloading url folder
                 :: if caught_by_download e then [error_record url e] else [])
              (files w) (requests w ++ [url]) (downloads w ++ [(url, folder)])).
Proof.
  intros Hg. unfold download_file, download_file_body.
  erewrite bind_Ok by reflexivity. unfold try_except.
  erewrite bind_Ok by reflexivity.
  erewrite bind_Raise by (unfold session_get; rewrite Hg; reflexivity).
  rewrite handlers_outcome. unfold add_log, add_request, add_download.
  destruct (caught_by_download e); simpl; by rewrite <- ?app_assoc.
Qed.

(** X13 on a request that times out. *)
Lemma X13_request_failure_witness :
  download_file (fun _ => Raise TimeoutError) Examples.open_ok Examples.write_ok
                Examples.file_url "/tmp/"
                (initial_world Examples.manager)
  = (Ok tt,
     mk_world Examples.manager [] []
              [LogDownloading Examples.file_url "/tmp/";
               LogDownloadFailed Examples.file_url TimeoutError]
              ∅ [Examples.file_url] [(Examples.file_url, "/tmp/")]).
Proof.
  apply (X13_request_failure (fun _ => Raise TimeoutError) Examples.open_ok Examples.write_ok
           Examples.file_url "/tmp/" TimeoutError (initial_world Examples.manager)).
  reflexivity.
Defined.

(** The exceptions that [download_file] lets through are the ones its
    [except] clauses do not name. *)
Lemma download_file_raises
    (http_get : string -> result response) (open_wb : path -> option exn)
    (write_error : path -> string -> string -> option string)
    (url folder : string) (w : world) :
  match fst (download_file http_get open_wb write_error url folder w) with
  | Ok _ => True
  | Raise e => caught_by_download e = false
  end.
Proof.
  unfold download_file, download_file_body.
  erewrite bind_Ok by reflexivity. unfold try_except.
  match goal with |- context [let (r, w') := ?m ?w0 in _] => destruct (m w0) as [[u|e] w1] end;
    [done|].
  pose proof (handlers_outcome url e w1) as H.
  destruct (download_handlers url e); rewrite H; by destruct (caught_by_download e) eqn:Hc.
Qed.

(** X14. No client error, timeout or [OSError] ever leaves
    [download_file], whatever the server, the file system and the world
    are: an exception that leaves it is none of these. *)
Theorem X14_download_contains_failures
    (http_get : string -> result response) (open_wb : path -> option exn)
    (write_error : path -> string -> string -> option string)
    (url folder : string) (w : world) :
  match fst (download_file http_get open_wb write_error url folder w) with
  | Ok _ => True
  | Raise e => caught_by_download e = false
  end.
Proof. apply download_file_raises. Qed.

Lemma get_sub_line_set_line {Bar} (m m1 : ProgressBarManager.t Bar) (s i : Z)
    (v : option Bar) :
  ProgressBarManager.set_line m s v = Ok m1 ->
  ProgressBarManager._get_sub_line m1 i = ProgressBarManager._get_sub_line m i.
Proof.
  unfold ProgressBarManager.set_line. destruct (py.list_setitem _ _ _); [|done].
  by intros [= <-].
Qed.

(** X15. Where the bar of a download is drawn.  When a slot is free, the
    bar is labelled with the number of the lowest free slot and writes
    to the screen line of that slot; when every slot is taken, the bar
    writes to the null device, nothing is labelled, and the download
    completes all the same.  This holds on every disk: a write that
    fails is logged and ends the download, with the bar where it was. *)
Theorem X15_bar_placement
    (http_get : string -> result response) (open_wb : path -> option exn)
    (write_error : path -> string -> string -> option string)
    (url folder f : string) (resp : response) (fsz : option Z) (w : world) :
  http_get url = Ok resp ->
  fst (resolve_filename url resp w) = Ok (Some f) ->
  fst (resolve_file_size resp w) = Ok fsz ->
  fits fsz (total_len (chunks resp)) ->
  open_wb (folder, f) = None ->
  stream_error resp = None ->
  let after := download_file http_get open_wb write_error url folder w in
  fst after = Ok tt /\
  exists b, bars (snd after) = (bars w ++ [b])%list /\
    match ProgressBarManager._alloc_slot (PROGRESS_MANAGER w) with
    | Ok (Some s) =>
        widgets b = TERM_yellow :: Text (pretty s +:+ ": ") :: Text f :: SUB_BAR_WIDGETS /\
        fd b = Writer (ProgressBarManager._get_sub_line (PROGRESS_MANAGER w) s)
    | Ok None =>
        widgets b = TERM_yellow :: Text f :: SUB_BAR_WIDGETS /\ fd b = DevNull
    | Raise _ => False
    end.
Proof.
  intros Hg Hf Hs Hfit Hopen Herr after. subst after.
  destruct (download_file_resolved http_get open_wb write_error url folder f resp fsz w
              Hg Hf Hs) as (seen & Hseen & ->).
  destruct w as [m bs cs lg fs rq dl]. unfold world_at_stream, try_except.
  cbn [PROGRESS_MANAGER bars bar_calls log files requests downloads].
  rewrite stream_to_file_fits by done. rewrite Hopen, Herr. cbv zeta.
  destruct (alloc_slot_total m) as [[s|] Ha]; rewrite Ha.
  - change (@Some nat (length bs)) with (@Some bar_ref (length bs)).
    destruct (claim_then_free (Bar := bar_ref) m s (length bs) Ha) as (m1 & Hset & Hfree).
    rewrite Hset, Hfree.
    destruct (loop_exn _ None) as [e|] eqn:Hl.
    + apply loop_exn_write in Hl as (c & errno & _ & ->).
      cbn [download_handlers LOGGER].
      cbn [fst snd PROGRESS_MANAGER bars bar_calls log files requests downloads add_log].
      split; [done|]. eexists. split; [reflexivity|]. cbn [widgets fd progressbar.new].
      split; [done|]. by rewrite (get_sub_line_set_line m m1 s s _ Hset).
    + cbn [fst snd PROGRESS_MANAGER bars bar_calls log files requests downloads].
      split; [done|]. eexists. split; [reflexivity|]. cbn [widgets fd progressbar.new].
      split; [done|]. by rewrite (get_sub_line_set_line m m1 s s _ Hset).
  - destruct (loop_exn _ None) as [e|] eqn:Hl.
    + apply loop_exn_write in Hl as (c & errno & _ & ->).
      cbn [download_handlers LOGGER].
      cbn [fst snd PROGRESS_MANAGER bars bar_calls log files requests downloads add_log].
      split; [done|]. eexists. split; [reflexivity|]. done.
    + cbn [fst snd PROGRESS_MANAGER bars bar_calls log files requests downloads].
      split; [done|]. eexists. split; [reflexivity|]. done.
Qed.

(** X15 with every slot of the pool taken. *)
Lemma X15_bar_placement_witness :
  let full := ProgressBarManager.mk (0, 7) (4, 8) (replicate 10 (Some 0%nat)) in
  let after := download_file (Examples.serve Examples.whole_transfer) Examples.open_ok
                 Examples.write_ok Examples.file_url "/tmp/" (initial_world full) in
  fst after = Ok tt /\
  exists b, bars (snd after) = [b] /\ fd b = DevNull.
Proof.
  intros full after.
  destruct (X15_bar_placement (Examples.serve Examples.whole_transfer) Examples.open_ok
              Examples.write_ok
              Examples.file_url "/tmp/" "100MB.zip" Examples.whole_transfer (Some 6)
              (initial_world full))
    as (Hr & b & Hb & _ & Hfd); try reflexivity.
  - right. by vm_compute.
  - split; [exact Hr|]. exists b. split; [exact Hb|exact Hfd].
Defined.

(** The slot that a claim fills holds the bar. *)
Lemma claim_line {Bar} (m m1 : ProgressBarManager.t Bar) (s : Z) (b : Bar) :
  ProgressBarManager._alloc_slot m = Ok (Some s) ->
  ProgressBarManager.set_line m s (Some b) = Ok m1 ->
  ProgressBarManager._lines m1 !! Z.to_nat s = Some (Some b).
Proof.
  intros Ha Hset. destruct (alloc_slot_Some m s Ha) as (Hs & _ & _).
  rewrite set_line_in_range in Hset by done. apply Ok_inj in Hset. subst m1.
  cbn [ProgressBarManager._lines ProgressBarManager.set_lines].
  apply list_lookup_insert_eq. lia.
Qed.



(** ** Which progress bars a computation touches *)

Section KeepsBars.
Variable n : nat.

Lemma keeps_bars_same {A} (m : M A) :
  (forall w, bars (snd (m w)) = bars w) -> keeps_bars n m.
Proof. intros H w Hn. by rewrite H. Qed.

Lemma keeps_bars_bind {A B} (m : M A) (k : A -> M B) :
  keeps_bars n m -> (forall a, keeps_bars n (k a)) -> keeps_bars n (bind m k).
Proof.
  intros Hm Hk w Hn. unfold bind. destruct (Hm w Hn) as [Ht Hl].
  destruct (m w) as [[a|e] w1]; simpl in *; [|done].
  destruct (Hk a w1) as [Ht' Hl']; [lia|]. split; [congruence|lia].
Qed.

(** A bar made in the course of a computation lies beyond the first [n]. *)
Lemma keeps_bars_new {B} (ws : list widget) (mx : option Z) (k : bar_ref -> M B) :
  (forall r, (n <= r)%nat -> keeps_bars n (k r)) ->
  keeps_bars n (bind (ProgressBar_new ws mx) k).
Proof.
  intros Hk w Hn. unfold bind, ProgressBar_new.
  destruct (Hk (length (bars w)) Hn (set_bars w (bars w ++ [progressbar.new ws mx])))
    as [Ht Hl]; [simpl; rewrite length_app; lia|].
  simpl in *. rewrite length_app in Hl. simpl in Hl.
  split; [|lia]. rewrite Ht. by apply take_app_le.
Qed.

Lemma keeps_bars_modify (r : bar_ref) (f : ProgressBar -> ProgressBar) :
  (n <= r)%nat -> keeps_bars n (bar_modify r f).
Proof.
  intros Hr w Hn. simpl. rewrite length_alter. split; [|done]. by apply take_alter_ge.
Qed.

Lemma keeps_bars_method (c : bar_call) (r : bar_ref) (f : ProgressBar -> result ProgressBar) :
  (n <= r)%nat -> keeps_bars n (bar_method c r f).
Proof.
  intros Hr w Hn. unfold bar_method. cbv zeta.
  destruct (f _); simpl; [|done]. rewrite length_insert. split; [|done].
  by apply take_insert_ge.
Qed.

Lemma keeps_bars_try_except {A} (m : M A) (h : exn -> option (M A)) :
  keeps_bars n m -> (forall e k, h e = Some k -> keeps_bars n k) ->
  keeps_bars n (try_except m h).
Proof.
  intros Hm Hh w Hn. unfold try_except. destruct (Hm w Hn) as [Ht Hl].
  destruct (m w) as [[a|e] w1]; simpl in *; [done|].
  destruct (h e) as [k|] eqn:He; [|done].
  destruct (Hh e k He w1) as [Ht' Hl']; [lia|]. split; [congruence|lia].
Qed.

Lemma keeps_bars_with_contextmanager {L A} (enter : M L) (exit : L -> M unit)
    (body : L -> M A) (P : L -> Prop) :
  keeps_bars n enter ->
  (forall w l w', enter w = (Ok l, w') -> P l) ->
  (forall l, P l -> keeps_bars n (exit l)) ->
  (forall l, P l -> keeps_bars n (body l)) ->
  keeps_bars n (with_contextmanager enter exit body).
Proof.
  intros He HP Hx Hb w Hn. unfold with_contextmanager. destruct (He w Hn) as [Ht Hl].
  destruct (enter w) as [[l|e] w1] eqn:Hen; simpl in *; [|done].
  pose proof (HP _ _ _ Hen) as Hl0.
  destruct (Hb l Hl0 w1) as [Ht1 Hl1]; [lia|].
  destruct (body l w1) as [[a|e] w2]; simpl in *; [|split; [congruence|lia]].
  destruct (Hx l Hl0 w2) as [Ht2 Hl2]; [lia|].
  destruct (exit l w2) as [[u|e] w3]; simpl in *; split; try congruence; lia.
Qed.

Lemma keeps_bars_for_chunks (cs : list string) (err : option exn) (body : string -> M unit) :
  (forall c, keeps_bars n (body c)) -> keeps_bars n (for_chunks cs err body).
Proof.
  intros Hb. induction cs as [|c cs IH]; simpl.
  - destruct err; by apply keeps_bars_same.
  - by apply keeps_bars_bind.
Qed.

End KeepsBars.

Ltac keeps_same := apply keeps_bars_same; intros [? ? ? ? ? ? ?];
  cbv beta delta [LOGGER session_get alloc_slot set_line free_slot file_write bar_get
                  ret raise lift];
  simpl; repeat (match goal with |- context [match ?x with _ => _ end] => destruct x end);
  reflexivity.

(** [install_sub_bar] and the loop only touch the bar they are given. *)
Lemma keeps_bars_install_sub_bar_enter (n : nat) (r : bar_ref) :
  (n <= r)%nat -> keeps_bars n (install_sub_bar_enter r).
Proof.
  intros Hr. unfold install_sub_bar_enter, bar_start.
  apply keeps_bars_bind; [keeps_same|]. intros [s|].
  - repeat (apply keeps_bars_bind; [|intros ?]);
      first [by apply keeps_bars_modify | by apply keeps_bars_method | keeps_same].
  - repeat (apply keeps_bars_bind; [|intros ?]);
      first [by apply keeps_bars_modify | by apply keeps_bars_method | keeps_same].
Qed.

Lemma install_sub_bar_enter_ref (r : bar_ref) (w w' : world) (l : option Z * bar_ref) :
  install_sub_bar_enter r w = (Ok l, w') -> snd l = r.
Proof.
  unfold install_sub_bar_enter, bind, ret.
  destruct (alloc_slot w) as [[o|e] w1]; [|done].
  match goal with |- context [let (r, w') := ?m ?w0 in _] => destruct (m w0) as [[u|e] w2] end;
    [|done].
  match goal with |- context [let (r, w') := ?m ?w0 in _] => destruct (m w0) as [[u'|e] w3] end;
    [|done].
  match goal with |- context [let (r, w') := ?m ?w0 in _] => destruct (m w0) as [[u''|e] w4] end;
    [|done].
  by intros [= <- _].
Qed.

Lemma keeps_bars_download_file (n : nat)
    (http_get : string -> result response) (open_wb : path -> option exn)
    (write_error : path -> string -> string -> option string)
    (url folder : string) :
  keeps_bars n (download_file http_get open_wb write_error url folder).
Proof.
  unfold download_file, download_file_body.
  apply keeps_bars_bind; [keeps_same|]. intros _.
  apply keeps_bars_try_except.
  - apply keeps_bars_bind; [keeps_same|]. intros _.
    apply keeps_bars_bind; [keeps_same|]. intros resp.
    apply keeps_bars_bind.
    { apply keeps_bars_same. intros w. rewrite resolve_filename_explicit. cbv zeta.
      by destruct (truthy_str _). }
    intros filename. apply keeps_bars_bind.
    { apply keeps_bars_same. intros w. by rewrite (resolve_file_size_explicit resp w w). }
    intros file_size. apply keeps_bars_bind; [keeps_same|]. intros p.
    unfold stream_to_file, with_open_wb. destruct (open_wb p); [keeps_same|].
    apply keeps_bars_bind; [by apply keeps_bars_same|]. intros _.
    apply keeps_bars_new. intros r Hr.
    unfold install_sub_bar.
    apply (keeps_bars_with_contextmanager n _ _ _ (fun l => snd l = r)).
    + by apply keeps_bars_install_sub_bar_enter.
    + intros w l w'. apply install_sub_bar_enter_ref.
    + intros [slot r'] Hl. simpl in Hl. subst r'. unfold install_sub_bar_exit, bar_finish.
      apply keeps_bars_bind; [by apply keeps_bars_method|]. intros _.
      destruct slot; keeps_same.
    + intros _ _. unfold stream_chunks. apply keeps_bars_for_chunks. intros c.
      unfold stream_body, bar_update. apply keeps_bars_bind; [|intros _; keeps_same].
      destruct (truthy_int file_size); [|keeps_same].
      apply keeps_bars_bind; [keeps_same|]. intros b. by apply keeps_bars_method.
  - intros e k. unfold download_handlers. destruct e; intros [= <-]; keeps_same.
Qed.

(** X16. A download leaves the progress bars of others alone: every bar
    that existed before the call of [download_file] is unchanged after
    it, whatever the server and the file system do and however the call
    ends; the call can only add bars of its own behind them. *)
Theorem X16_download_keeps_other_bars
    (http_get : string -> result response) (open_wb : path -> option exn)
    (write_error : path -> string -> string -> option string)
    (url folder : string) (w : world) :
  exists new,
    bars (snd (download_file http_get open_wb write_error url folder w))
    = (bars w ++ new)%list.
Proof.
  destruct (keeps_bars_download_file (length (bars w)) http_get open_wb write_error
              url folder w) as [Ht _]; [done|].
  exists (drop (length (bars w))
            (bars (snd (download_file http_get open_wb write_error url folder w)))).
  rewrite <- (take_drop (length (bars w))) at 1. rewrite Ht. by rewrite take_ge.
Qed.

(** ** The main bar of [scrape] *)

Lemma take_snoc_lookup {A} (l bs : list A) (b : A) :
  take (S (length bs)) l = (bs ++ [b])%list ->
  l !! length bs = Some b /\ take (length bs) l = bs.
Proof.
  intros H. split.
  - rewrite <- (lookup_take_lt l (S (length bs))) by lia. rewrite H.
    by apply list_lookup_middle.
  - assert (Ht : take (length bs) (take (S (length bs)) l) = take (length bs) l).
    { rewrite take_take. f_equal. lia. }
    rewrite H in Ht. by rewrite take_app_length in Ht.
Qed.

Section MainBar.
Variable http_get : string -> result response.
Variable open_wb : path -> option exn.
Variable write_error : path -> string -> string -> option string.
Variable decode : list (string * string) -> string -> option string.
Variable findAll_a_href : string -> list string.

Lemma scrape_main_bar (resp : response) (text t : string) (w : world) :
  http_get listing_url = Ok resp ->
  status resp < 400 ->
  stream_error resp = None ->
  decode (headers resp) (whole_body resp) = Some text ->
  select_target (zip_links (findAll_a_href text)) = Ok t ->
  let out := scrape http_get open_wb write_error decode findAll_a_href w in
  let main_bar v :=
    progressbar.mk (TERM_bold :: MAIN_BAR_WIDGETS) (Some 1) v
      (Writer (ProgressBarManager._main_coords (PROGRESS_MANAGER w))) in
  take (length (bars w)) (bars (snd out)) = bars w /\
  match fst out with
  | Ok _ => bars (snd out) !! length (bars w) = Some (main_bar 1)
  | Raise e =>
      caught_by_download e = false /\
      bars (snd out) !! length (bars w) = Some (main_bar 0)
  end.
Proof.
  intros Hg Hs He Hd Ht. cbv zeta. unfold scrape. cbv zeta.
  erewrite bind_Ok; cycle 1.
  { unfold try_except. erewrite bind_Ok by (by apply fetch_Ok). reflexivity. }
  cbv beta iota.
  erewrite bind_Ok by reflexivity.
  erewrite bind_Ok by reflexivity.
  erewrite bind_Ok by (unfold lift; rewrite Ht; reflexivity).
  erewrite bind_Ok by reflexivity.
  destruct w as [m bs cs lg fs rq dl].
  unfold install_main, with_contextmanager, add_log, add_request, set_bars. simpl.
  rewrite install_main_enter_fresh by lia.
  match goal with |- context [download_file ?g ?o ?wr ?u ?f ?w0] =>
    pose proof (download_file_raises g o wr u f w0) as Hr;
    destruct (keeps_bars_download_file (S (length bs)) g o wr u f w0) as [Hk Hl];
      [simpl; rewrite length_app; simpl; lia|];
    destruct (download_file g o wr u f w0) as [[u0|e0] w3] end;
    simpl in Hr, Hk, Hl; rewrite length_app in Hl; simpl in Hl;
    rewrite (take_ge (_ ++ [_])%list) in Hk by (rewrite length_app; simpl; lia);
    apply take_snoc_lookup in Hk as [Hb Hk].
  - unfold install_main_exit, bar_finish, bar_method. cbv zeta.
    unfold add_bar_call. cbn [bars].
    rewrite (list_lookup_total_correct _ _ _ Hb).
    rewrite (finish_started _ 1) by (simpl; first [reflexivity | lia]).
    simpl. split.
    + by rewrite take_insert_ge by lia.
    + rewrite list_lookup_insert_eq by lia. reflexivity.
  - simpl. done.
Qed.

End MainBar.

(** X17. The main bar tells how [scrape] ended.  When the listing page is
    fetched whole with a status below 400, is valid in its charset and a
    link is selected, [scrape] makes one bar behind the existing ones,
    which it leaves as they were.  If [scrape] returns, that bar is
    finished at 1 of 1, also when the download failed and was only
    logged; if [scrape] raises, the exception is none of those
    [download_file] catches and the bar is left started at 0: the code
    after the [yield] of [install_main] has not run. *)
Theorem X17_main_bar_outcome
    (http_get : string -> result response) (open_wb : path -> option exn)
    (write_error : path -> string -> string -> option string)
    (decode : list (string * string) -> string -> option string)
    (findAll_a_href : string -> list string) (resp : response) (text t : string)
    (w : world) :
  http_get listing_url = Ok resp ->
  status resp < 400 ->
  stream_error resp = None ->
  decode (headers resp) (whole_body resp) = Some text ->
  select_target (zip_links (findAll_a_href text)) = Ok t ->
  let out := scrape http_get open_wb write_error decode findAll_a_href w in
  let main_bar v :=
    progressbar.mk (TERM_bold :: MAIN_BAR_WIDGETS) (Some 1) v
      (Writer (ProgressBarManager._main_coords (PROGRESS_MANAGER w))) in
  take (length (bars w)) (bars (snd out)) = bars w /\
  match fst out with
  | Ok _ => bars (snd out) !! length (bars w) = Some (main_bar 1)
  | Raise e =>
      caught_by_download e = false /\
      bars (snd out) !! length (bars w) = Some (main_bar 0)
  end.
Proof. apply scrape_main_bar. Qed.

(** X17 on a download whose output file cannot be opened: the failure is
    logged, and the main bar is finished. *)
Lemma X17_main_bar_outcome_witness :
  bars (snd (scrape (Examples.serve Examples.listing_page)
                    (fun _ => Some (OSError "EACCES")) Examples.write_ok
                    Examples.decode_ok
                    (Examples.links Examples.fixture_links)
                    (initial_world Examples.manager))) !! 0%nat
  = Some (progressbar.mk (TERM_bold :: MAIN_BAR_WIDGETS) (Some 1) 1 (Writer (0, 7))).
Proof.
  destruct (X17_main_bar_outcome
              (Examples.serve Examples.listing_page) (fun _ => Some (OSError "EACCES"))
              Examples.write_ok Examples.decode_ok
              (Examples.links Examples.fixture_links) Examples.listing_page
              "<html>" "100MB-1.zip" (initial_world Examples.manager))
    as [_ H]; [reflexivity|simpl; lia|reflexivity|reflexivity|reflexivity|].
  exact H.
Defined.

(** ** The exceptions that leave [scrape] *)

Section RaisesOnly.
Variable P : exn -> bool.

Lemma raises_only_total {A} (m : M A) :
  (forall w, exists a, fst (m w) = Ok a) -> raises_only P m.
Proof. intros H w e He. destruct (H w) as [a Ha]. congruence. Qed.

Lemma raises_only_bind {A B} (m : M A) (k : A -> M B) :
  raises_only P m -> (forall a, raises_only P (k a)) -> raises_only P (bind m k).
Proof.
  intros Hm Hk w e. unfold bind. pose proof (Hm w) as Hm'.
  destruct (m w) as [[a|e0] w1]; simpl in *; [apply Hk|].
  intros [= <-]. by apply Hm'.
Qed.

Lemma raises_only_lift {A} (r : result A) :
  (forall e, r = Raise e -> P e = true) -> raises_only P (lift r).
Proof. intros H w e. unfold lift. simpl. apply H. Qed.

Lemma raises_only_bar_method (c : bar_call) (r : bar_ref)
    (f : ProgressBar -> result ProgressBar) :
  (forall b e, f b = Raise e -> P e = true) -> raises_only P (bar_method c r f).
Proof.
  intros H w e. unfold bar_method. cbv zeta.
  destruct (f _) as [b|e0] eqn:Hf; simpl; [done|]. intros [= <-]. by eapply H.
Qed.

Lemma raises_only_with_contextmanager {L A} (enter : M L) (exit : L -> M unit)
    (body : L -> M A) :
  raises_only P enter -> (forall l, raises_only P (exit l)) ->
  (forall l, raises_only P (body l)) ->
  raises_only P (with_contextmanager enter exit body).
Proof.
  intros He Hx Hb w e. unfold with_contextmanager. pose proof (He w) as He'.
  destruct (enter w) as [[l|e0] w1]; simpl in *; [|intros [= <-]; by apply He'].
  pose proof (Hb l w1) as Hb'.
  destruct (body l w1) as [[a|e1] w2]; simpl in *; [|intros [= <-]; by apply Hb'].
  pose proof (Hx l w2) as Hx'.
  destruct (exit l w2) as [[u|e2] w3]; simpl in *; [done|intros [= <-]; by apply Hx'].
Qed.

End RaisesOnly.

(** The methods of a bar raise [ValueError] or [TypeError] only. *)
Lemma update_raises (b : ProgressBar) (v : Z) (e : exn) :
  progressbar.update b v = Raise e -> is_value_or_type_error e = true.
Proof.
  unfold progressbar.update. destruct (maxval b); [|by intros [= <-]].
  destruct (_ && _); [done|by intros [= <-]].
Qed.

Lemma start_raises (b : ProgressBar) (e : exn) :
  progressbar.start b = Raise e -> is_value_or_type_error e = true.
Proof.
  unfold progressbar.start. cbv zeta.
  destruct (maxval _); [destruct (_ <? _); [by intros [= <-]|]|]; apply update_raises.
Qed.

Lemma finish_raises (b : ProgressBar) (e : exn) :
  progressbar.finish b = Raise e -> is_value_or_type_error e = true.
Proof.
  unfold progressbar.finish. destruct (maxval b); [apply update_raises|by intros [= <-]].
Qed.

Lemma value_or_type_not_network (e : exn) :
  is_value_or_type_error e = true -> negb (network_error e) = true.
Proof. by destruct e. Qed.

Lemma scrape_raises
    (http_get : string -> result response) (open_wb : path -> option exn)
    (write_error : path -> string -> string -> option string)
    (decode : list (string * string) -> string -> option string)
    (findAll_a_href : string -> list string) :
  raises_only (fun e => negb (network_error e))
              (scrape http_get open_wb write_error decode findAll_a_href).
Proof.
  unfold scrape. cbv zeta. apply raises_only_bind.
  - intros w e. unfold try_except, bind.
    destruct (fetch http_get decode listing_url w) as [[a|e0] w1]; simpl; [done|].
    destruct e0; simpl; try done; by intros [= <-].
  - intros [t|]; [|by apply raises_only_total; eexists].
    apply raises_only_bind; [by apply raises_only_total; eexists|]. intros _.
    apply raises_only_bind; [by apply raises_only_total; eexists|]. intros _.
    apply raises_only_bind.
    { apply raises_only_lift. intros e. unfold select_target, py.list_getitem. cbv zeta.
      destruct (_ && _); [destruct (_ !! _)|]; try done; by intros [= <-]. }
    intros target. apply raises_only_bind; [by apply raises_only_total; eexists|].
    intros r. unfold install_main. apply raises_only_with_contextmanager.
    + unfold install_main_enter.
      apply raises_only_bind; [by apply raises_only_total; eexists|]. intros self.
      apply raises_only_bind; [by apply raises_only_total; eexists|]. intros _.
      apply raises_only_bind; [by apply raises_only_total; eexists|]. intros _.
      apply raises_only_bind; [|intros _; by apply raises_only_total; eexists].
      apply raises_only_bar_method. intros b e He.
      by apply value_or_type_not_network, (start_raises b).
    + intros l. apply raises_only_bar_method. intros b e He.
      by apply value_or_type_not_network, (finish_raises b).
    + intros _ w e He.
      pose proof (download_file_raises http_get open_wb write_error
                    (listing_url +:+ target) "/tmp/" w) as H.
      rewrite He in H. by destruct e.
Qed.

(** X18. No failure of the network leaves [scrape]: whatever the server
    answers, whatever the parser finds and whatever the file system does,
    an exception that leaves [scrape] is neither an [aiohttp] client
    error nor a timeout.  Those are caught around [fetch] and inside
    [download_file]; what can leave is of another kind, such as the
    [IndexError] of the selection. *)
Theorem X18_scrape_contains_network_errors
    (http_get : string -> result response) (open_wb : path -> option exn)
    (write_error : path -> string -> string -> option string)
    (decode : list (string * string) -> string -> option string)
    (findAll_a_href : string -> list string) (w : world) :
  match fst (scrape http_get open_wb write_error decode findAll_a_href w) with
  | Ok _ => True
  | Raise e => network_error e = false
  end.
Proof.
  pose proof (scrape_raises http_get open_wb write_error decode findAll_a_href w) as H.
  destruct (fst (scrape http_get open_wb write_error decode findAll_a_href w)) as [u|e]; [done|].
  specialize (H e eq_refl). by destruct (network_error e).
Qed.

(** ** A page that cannot be decoded *)

(** X20. A listing page that arrives whole with a status below 400 but
    is not valid in its charset makes [scrape] raise the
    [UnicodeDecodeError] of [resp.text()], a [ValueError]: the [except]
    clause around [fetch] names client errors and timeouts only.
    Nothing is logged about it, no progress bar is made and no download
    is started. *)
Theorem X20_undecodable_page
    (http_get : string -> result response) (open_wb : path -> option exn)
    (write_error : path -> string -> string -> option string)
    (decode : list (string * string) -> string -> option string)
    (findAll_a_href : string -> list string) (resp : response) (w : world) :
  http_get listing_url = Ok resp ->
  status resp < 400 ->
  stream_error resp = None ->
  decode (headers resp) (whole_body resp) = None ->
  scrape http_get open_wb write_error decode findAll_a_href w
  = (Raise ValueError,
     mk_world (PROGRESS_MANAGER w) (bars w) (bar_calls w)
              (log w ++ [LogFetching listing_url; LogGotResponse (status resp)])
              (files w) (requests w ++ [listing_url]) (downloads w)).
Proof.
  intros Hg Hs He Hd. unfold scrape. cbv zeta.
  unfold bind at 1, try_except, fetch, bind, LOGGER, session_get, lift, raise_for_status,
    resp_text.
  rewrite Hg. cbn [fst snd]. destruct (Z.leb_spec 400 (status resp)); [lia|].
  rewrite He, Hd. cbn [scrape_handlers]. unfold add_log, add_request.
  cbn [PROGRESS_MANAGER bars bar_calls log files requests downloads].
  by rewrite <- app_assoc.
Qed.

(** X20 on the fixture page in a charset in which it is not valid. *)
Lemma X20_undecodable_page_witness :
  scrape (Examples.serve Examples.listing_page) Examples.open_ok Examples.write_ok
         Examples.decode_fails (Examples.links Examples.fixture_links)
         (initial_world Examples.manager)
  = (Raise ValueError,
     mk_world Examples.manager [] [] [LogFetching listing_url; LogGotResponse 200]
              ∅ [listing_url] []).
Proof.
  apply (X20_undecodable_page (Examples.serve Examples.listing_page) Examples.open_ok
           Examples.write_ok Examples.decode_fails (Examples.links Examples.fixture_links)
           Examples.listing_page (initial_world Examples.manager));
    [reflexivity|simpl; lia|reflexivity|reflexivity].
Defined.
